(** * NhDBN utilities: feature-set moves, data selection and matrix builders

    A shallow embedding of [src/NhDBN/utils.py].  Feature sets are numpy
    integer arrays and are modelled as [list Z]; feature vectors are numpy
    float64 arrays and are modelled as [list float]; Python dictionaries are
    insertion-ordered and are modelled as association lists whose update
    keeps the position of an existing key.  Raised exceptions are values of
    [exn] carried by the [result] monad.  The process-wide random generator
    is replaced by the draws it hands out, passed explicitly. *)

From Stdlib Require Import ZArith List Bool Lia Sorted.
From Stdlib Require Import Floats.
From Stdlib Require String Ascii DecimalString FinFun.
From Stdlib Require DecimalZ DecimalPos.
Import ListNotations.

Local Open Scope string_scope.
Local Open Scope Z_scope.

Import String.StringSyntax.
Import Ascii.AsciiSyntax.
Local Delimit Scope char_scope with char.

(** ** Exceptions and the error monad *)

Inductive exn : Type :=
| ValueError (msg : String.string)
| KeyError (key : String.string).

Inductive result (A : Type) : Type :=
| Ok (a : A)
| Raise (e : exn).

Arguments Ok {A} a.
Arguments Raise {A} e.

Definition bind {A B : Type} (m : result A) (k : A -> result B) : result B :=
  match m with
  | Ok a => k a
  | Raise e => Raise e
  end.

Notation "x <- m ;; k" := (bind m (fun x => k))
  (at level 61, m at next level, right associativity).

Definition is_ValueError {A : Type} (m : result A) : Prop :=
  match m with
  | Raise (ValueError _) => True
  | _ => False
  end.

Definition is_KeyError {A : Type} (m : result A) : Prop :=
  match m with
  | Raise (KeyError _) => True
  | _ => False
  end.

(** ** The numpy operations the module calls *)

Module np.

(** One-dimensional integer arrays. *)
Definition int_array := list Z.

(** [np.unique] returns the sorted distinct values of its argument; each
    value is put at its place in the sorted result unless already there. *)
Fixpoint insert_unique (x : Z) (l : list Z) : list Z :=
  match l with
  | [] => [x]
  | y :: t =>
      match x ?= y with
      | Lt => x :: y :: t
      | Eq => y :: t
      | Gt => y :: insert_unique x t
      end
  end.

Definition unique (ar : int_array) : int_array :=
  fold_right insert_unique [] ar.

(** [np.in1d(ar1, ar2, invert=True)] as a mask on one element. *)
Definition not_in1d (ar2 : int_array) (x : Z) : bool :=
  negb (existsb (Z.eqb x) ar2).

(** [np.setdiff1d(ar1, ar2)]: both arguments are made unique, and the values
    of [ar1] that occur in [ar2] are masked out.  A scalar second argument
    is the array of that one value. *)
Definition setdiff1d (ar1 ar2 : int_array) : int_array :=
  filter (not_in1d (unique ar2)) (unique ar1).

(** [np.arange(n)] is [0, 1, ..., n-1]. *)
Definition arange (n : nat) : int_array :=
  map Z.of_nat (seq 0 n).

(** [np.add(ar, k)] adds the scalar to every entry. *)
Definition add (ar : int_array) (k : Z) : int_array :=
  map (fun x => x + k) ar.

(** [np.append(ar, v)] with a scalar [v]. *)
Definition append (ar : int_array) (v : Z) : int_array :=
  ar ++ [v].

Definition choice_empty_msg : String.string :=
  "'a' cannot be empty unless no samples are taken".

Definition choice_nonpositive_msg : String.string :=
  "a must be greater than 0 unless no samples are taken".

Definition choice_larger_sample_msg : String.string :=
  "Cannot take a larger sample than population when 'replace=False'".

(** [np.random.choice(a)] on a one-dimensional array: the generator hands
    out an index below [len(a)] (here the draw [r] reduced modulo the
    length); an empty population is refused with a [ValueError]. *)
Definition random_choice (a : int_array) (r : nat) : result Z :=
  match a with
  | [] => Raise (ValueError choice_empty_msg)
  | _ :: _ => Ok (nth (r mod length a)%nat a 0)
  end.

(** Removing the entry at a position. *)
Fixpoint remove_at {A : Type} (i : nat) (l : list A) : list A :=
  match l, i with
  | [], _ => []
  | _ :: t, O => t
  | x :: t, S j => x :: remove_at j t
  end.

(** Drawing [size] entries without replacement: every draw picks a position
    in what is left of the population and takes the entry out. *)
Fixpoint sample_without_replacement
  (pool : int_array) (size : nat) (draws : list nat) : int_array :=
  match size with
  | O => []
  | S size' =>
      match pool with
      | [] => []
      | _ :: _ =>
          let i := (hd O draws mod length pool)%nat in
          nth i pool 0
            :: sample_without_replacement (remove_at i pool) size' (tl draws)
      end
  end.

(** [np.random.choice(a, size, replace=False)] with an integer [a]: the
    population is [np.arange(a)].  A non-positive [a] is refused unless no
    sample is asked for, and so is a sample larger than the population. *)
Definition random_choice_no_replace
  (a size : nat) (draws : list nat) : result int_array :=
  if ((a =? 0) && negb (size =? 0))%nat then
    Raise (ValueError choice_nonpositive_msg)
  else if (a <? size)%nat then
    Raise (ValueError choice_larger_sample_msg)
  else Ok (sample_without_replacement (arange a) size draws).

(** Arrays of floats, of one or two dimensions.  A two-dimensional array
    carries its shape, so that an array without rows still has a column
    count; its entries are listed row by row. *)
Inductive ndarray : Type :=
| Vec (v : list float)
| Mat (rows cols : nat) (m : list (list float)).

Definition shape (a : ndarray) : list nat :=
  match a with
  | Vec v => [length v]
  | Mat r c _ => [r; c]
  end.

(** The entries in row-major order, as [reshape] reads them. *)
Definition ravel (a : ndarray) : list float :=
  match a with
  | Vec v => v
  | Mat _ _ m => concat m
  end.

Definition ones (n : nat) : ndarray := Vec (repeat 1%float n).

Definition zeros (n : nat) : ndarray := Vec (repeat 0%float n).

Definition atleast_2d (a : ndarray) : ndarray :=
  match a with
  | Vec v => Mat 1 (length v) [v]
  | Mat r c m => Mat r c m
  end.

(** The decimal writing of a size in a message. *)
Definition size_str (n : nat) : String.string :=
  DecimalString.NilZero.string_of_uint (Nat.to_uint n).

(** The message of stacking rows of [size0] and of [size1] entries. *)
Definition vstack_mismatch_msg (size0 size1 : nat) : String.string :=
  String.append
    "all the input array dimensions except for the concatenation axis must match exactly, but along dimension 1, the array at index 0 has size "
    (String.append (size_str size0)
       (String.append " and the array at index 1 has size "
          (size_str size1))).

(** [np.vstack((a, b))]: both arrays are taken as matrices and [b]'s rows
    are put under [a]'s; the column counts have to agree. *)
Definition vstack (a b : ndarray) : result ndarray :=
  match atleast_2d a, atleast_2d b with
  | Mat ra ca ma, Mat rb cb mb =>
      if (ca =? cb)%nat then Ok (Mat (ra + rb) ca (ma ++ mb))
      else Raise (ValueError (vstack_mismatch_msg ca cb))
  | _, _ => Raise (ValueError (vstack_mismatch_msg 0 0))
  end.

(** [a.T]: a one-dimensional array is its own transpose. *)
Definition T (a : ndarray) : ndarray :=
  match a with
  | Vec v => Vec v
  | Mat r c m =>
      Mat c r (map (fun j => map (fun row => nth j row 0%float) m) (seq 0 c))
  end.

(** Cutting a sequence of entries into [r] rows of [c] entries. *)
Fixpoint chunks (r c : nat) (data : list float) : list (list float) :=
  match r with
  | O => []
  | S r' => firstn c data :: chunks r' c (skipn c data)
  end.

Definition reshape_msg : String.string :=
  "cannot reshape array into the requested shape".

(** [a.reshape(r, c)]: the number of entries has to be [r * c]. *)
Definition reshape (a : ndarray) (r c : nat) : result ndarray :=
  if (length (ravel a) =? r * c)%nat then Ok (Mat r c (chunks r c (ravel a)))
  else Raise (ValueError reshape_msg).

(** [np.random.normal(loc, scale, n)]: the generator is given by what each
    of its calls hands out, [g call i] being sample [i] of call number
    [call]; a call returns [n] samples. *)
Definition random_normal (g : nat -> nat -> float) (call n : nat) : list float :=
  map (g call) (seq 0 n).

(** [a * c] with a scalar [c]. *)
Definition mul_scalar (a : list float) (c : float) : list float :=
  map (fun x => (x * c)%float) a.

Definition broadcast_msg : String.string :=
  "operands could not be broadcast together".

(** [a + b] on one-dimensional arrays: entry by entry when the lengths
    agree, an array of one entry is spread over the other, and other
    lengths are refused. *)
Definition add_arrays (a b : list float) : result (list float) :=
  if (length a =? length b)%nat then
    Ok (map (fun p => (fst p + snd p)%float) (combine a b))
  else
    match a, b with
    | [x], _ => Ok (map (fun y => (x + y)%float) b)
    | _, [y] => Ok (map (fun x => (x + y)%float) a)
    | _, _ => Raise (ValueError broadcast_msg)
    end.

End np.

(** [range(n)] on an integer: empty when [n] is not positive. *)
Definition range (n : Z) : list Z :=
  map Z.of_nat (seq 0 (Z.to_nat n)).

(** ** Dictionaries and datasets *)

(** A Python [dict] keeps its keys in insertion order. *)
Definition dict (V : Type) : Type := list (String.string * V).

(** [d[k]]: a missing key raises [KeyError]. *)
Fixpoint dict_get {V : Type} (d : dict V) (k : String.string) : result V :=
  match d with
  | [] => Raise (KeyError k)
  | (k', v) :: t => if String.eqb k' k then Ok v else dict_get t k
  end.

(** [d[k] = v]: an existing key keeps its place, a new key goes last. *)
Fixpoint dict_set {V : Type} (d : dict V) (k : String.string) (v : V) : dict V :=
  match d with
  | [] => [(k, v)]
  | (k', v') :: t =>
      if String.eqb k' k then (k', v) :: t else (k', v') :: dict_set t k v
  end.

(** [list(dict.keys(d))]. *)
Definition dict_keys {V : Type} (d : dict V) : list String.string :=
  map fst d.

(** [len(d)]. *)
Definition dict_len {V : Type} (d : dict V) : nat := length d.

(** The dataset: [data['features']] and [data['response']]. *)
Record dataset : Type := mkDataset {
  features : dict (list float);
  response : dict (list float)
}.

(** [str(int(feature))] on an integer: its decimal writing. *)
Definition str (z : Z) : String.string :=
  DecimalString.NilZero.string_of_int (Z.to_int z).

(** ['X' + str(int(feature))]. *)
Definition feature_key (feature : Z) : String.string :=
  String.append "X" (str feature).

Arguments feature_key : simpl never.

(** ** Data selection *)

(** The loop of [selectData] over the feature set, on the dictionary being
    filled. *)
Fixpoint selectData_loop
  (data : dataset) (featureSet : list Z) (partialData : dataset)
  : result dataset :=
  match featureSet with
  | [] => Ok partialData
  | feature :: rest =>
      let currKey := feature_key feature in
      v <- dict_get (features data) currKey ;;
      selectData_loop data rest
        (mkDataset (dict_set (features partialData) currKey v)
                   (response partialData))
  end.

Definition selectData (data : dataset) (featureSet : list Z) : result dataset :=
  let partialData := mkDataset [] [] in
  selectData_loop data featureSet partialData.

(** ** Prior mean and design matrix *)

Definition constructMuMatrix (featureSet : list Z) : result np.ndarray :=
  let numFeatures := (length featureSet + 1)%nat in
  np.reshape (np.zeros numFeatures) numFeatures 1.

(** The stacking loop of [constructDesignMatrix] over the keys. *)
Fixpoint stack_features
  (data : dataset) (currFeatures : list String.string)
  (designMatrix : np.ndarray) : result np.ndarray :=
  match currFeatures with
  | [] => Ok designMatrix
  | feature :: rest =>
      currFeatureVector <- dict_get (features data) feature ;;
      designMatrix' <- np.vstack designMatrix (np.Vec currFeatureVector) ;;
      stack_features data rest designMatrix'
  end.

Definition constructDesignMatrix
  (data : dataset) (num_samples : nat) : result np.ndarray :=
  let ones_vector := np.ones num_samples in
  let designMatrix := ones_vector in
  let currFeatures := dict_keys (features data) in
  designMatrix' <- stack_features data currFeatures designMatrix ;;
  if (length currFeatures <? 1)%nat then
    np.reshape (np.T designMatrix') num_samples 1
  else Ok (np.T designMatrix').

(** ** Data generation *)

(** The first loop of [generateData]: one column of samples per independent
    variable.  [call] counts the calls made to the generator so far. *)
Fixpoint generateData_independent
  (g : nat -> nat -> float) (num_samples : nat) (idx : list Z)
  (call : nat) (feats : dict (list float)) : dict (list float) * nat :=
  match idx with
  | [] => (feats, call)
  | i :: rest =>
      let col_name := feature_key (i + 1) in
      generateData_independent g num_samples rest (S call)
        (dict_set feats col_name (np.random_normal g call num_samples))
  end.

Local Set Warnings "-inexact-float".

(** The second loop: every dependent column is
    [X1 * -0.2 + X2 * 0.7 + epsilon]. *)
Fixpoint generateData_dependent
  (g : nat -> nat -> float) (num_samples : nat) (dimensions dependent : Z)
  (idx : list Z) (call : nat) (feats : dict (list float))
  : result (dict (list float) * nat) :=
  match idx with
  | [] => Ok (feats, call)
  | i :: rest =>
      let currDataIdx := (dimensions - dependent) + i + 1 in
      let col_name := feature_key currDataIdx in
      let epsilon := np.random_normal g call num_samples in
      x1 <- dict_get feats "X1" ;;
      x2 <- dict_get feats "X2" ;;
      combination <-
        np.add_arrays (np.mul_scalar x1 (-0.2)%float)
                      (np.mul_scalar x2 0.7%float) ;;
      currData <- np.add_arrays combination epsilon ;;
      generateData_dependent g num_samples dimensions dependent rest (S call)
        (dict_set feats col_name currData)
  end.

Local Set Warnings "inexact-float".

Definition generateData
  (g : nat -> nat -> float) (num_samples dimensions dependent : nat)
  : result dataset :=
  let dimensions' := Z.of_nat dimensions in
  let dependent' := Z.of_nat dependent in
  let (feats, call) :=
    generateData_independent g num_samples (range (dimensions' - dependent'))
      0 [] in
  feats_call <-
    generateData_dependent g num_samples dimensions' dependent'
      (range dependent') call feats ;;
  let (feats', call') := feats_call in
  Ok (mkDataset feats'
        (dict_set [] "y" (np.random_normal g call' num_samples))).

(** The caller [testDataGeneration]: what it prints, the number of features
    and the shape of the design matrix, is what it returns here. *)
Definition testDataGeneration (g : nat -> nat -> float)
  : result (nat * list nat) :=
  data <- generateData g 100 3 1 ;;
  X <- constructDesignMatrix data 100 ;;
  Ok (dict_len (features data), np.shape X).

(** ** Coefficient files *)

(** Strings as sequences of characters, for the string methods used on a
    line. *)
Definition chars (s : String.string) : list Ascii.ascii :=
  String.list_ascii_of_string s.

Definition in_chars (set : list Ascii.ascii) (c : Ascii.ascii) : bool :=
  existsb (Ascii.eqb c) set.

Fixpoint lstrip (set s : list Ascii.ascii) : list Ascii.ascii :=
  match s with
  | [] => []
  | c :: t => if in_chars set c then lstrip set t else c :: t
  end.

Definition rstrip (set s : list Ascii.ascii) : list Ascii.ascii :=
  rev (lstrip set (rev s)).

(** [s.strip(set)]: the characters of [set] are taken off both ends. *)
Definition strip (set s : list Ascii.ascii) : list Ascii.ascii :=
  rstrip set (lstrip set s).

(** [s.replace(c, '')] for a one-character [c]. *)
Definition delete_char (c : Ascii.ascii) (s : list Ascii.ascii)
  : list Ascii.ascii :=
  filter (fun x => negb (Ascii.eqb x c)) s.

(** [s.split(sep)] for a one-character [sep]: a piece between every two
    separators, empty pieces included. *)
Fixpoint split (sep : Ascii.ascii) (s : list Ascii.ascii)
  : list (list Ascii.ascii) :=
  match s with
  | [] => [[]]
  | c :: t =>
      if Ascii.eqb c sep then [] :: split sep t
      else
        match split sep t with
        | [] => [[c]]
        | w :: ws => (c :: w) :: ws
        end
  end.

(** The characters ["[]\n"]. *)
Definition brackets_newline : list Ascii.ascii :=
  ["["; "]"; "010"]%char.

(** [line.strip('[]\n').replace(',', '').split(' ')]. *)
Definition regularizedLine (line : String.string) : list String.string :=
  map String.string_of_list_ascii
    (split " "%char
       (delete_char ","%char (strip brackets_newline (chars line)))).

(** How a call of [parseCoefs] ends: with the coefficients, or with the
    error of the second [open], or with the error of [float] in the second
    reading. *)
Inductive parse_outcome : Type :=
| Returned (coefs : list (list float))
| OpenFailed
| FloatFailed.

Section ParseCoefs.

(** [float(x)] on a token, [None] when it raises. *)
Variable float_of : String.string -> option float.

(** [[float(x) for x in regularizedLine]]. *)
Fixpoint floatifiedLine (tokens : list String.string) : option (list float) :=
  match tokens with
  | [] => Some []
  | x :: rest =>
      match float_of x with
      | None => None
      | Some f =>
          match floatifiedLine rest with
          | None => None
          | Some fs => Some (f :: fs)
          end
      end
  end.

(** The loop over the lines of a file, on the list [coefs] being filled;
    the flag tells whether the loop ran to its end or [float] raised. *)
Fixpoint read_lines
  (lines : list String.string) (coefs : list (list float))
  : list (list float) * bool :=
  match lines with
  | [] => (coefs, true)
  | line :: rest =>
      match floatifiedLine (regularizedLine line) with
      | Some v => read_lines rest (coefs ++ [v])
      | None => (coefs, false)
      end
  end.

(** [parseCoefs]: [first] and [second] are the lines of the file under the
    working directory and under [src/NhDBN], [None] when the file cannot
    be opened.  Whatever is raised in the first reading is caught, and the
    second reading goes on with the same list [coefs]. *)
Definition parseCoefs
  (first second : option (list String.string)) : parse_outcome :=
  let second_reading (coefs : list (list float)) :=
    match second with
    | None => OpenFailed
    | Some lines =>
        let (coefs', finished) := read_lines lines coefs in
        if finished then Returned coefs' else FloatFailed
    end in
  match first with
  | None => second_reading []
  | Some lines =>
      let (coefs, finished) := read_lines lines [] in
      if finished then Returned coefs else second_reading coefs
  end.

End ParseCoefs.

(** ** The move operators *)

Definition deleteMove_msg : String.string :=
  "You cannot delete an element when the card(Pi) is <2.".

Definition addMove_msg : String.string :=
  "The cardinality of the feature set cannot be more than the fan-in restriction.".

Definition exchangeMove_msg : String.string :=
  "You must have at least one element on the feature set to be able to exchange it.".

(** [deleteMove]; [r] is the draw behind [elToDel]. *)
Definition deleteMove
  (featureSet : list Z) (numFeatures fanInRestriction : nat) (r : nat)
  : result (list Z) :=
  if (length featureSet <? 2)%nat then Raise (ValueError deleteMove_msg)
  else
    elToDel <- np.random_choice featureSet r ;;
    let withoutDeleted := np.setdiff1d featureSet [elToDel] in
    Ok withoutDeleted.

(** [addMove]; [fanInRestriction - 1] is computed on integers, so a zero
    restriction gives [-1].  [r] is the draw behind [featureToAdd]. *)
Definition addMove
  (featureSet : list Z) (numFeatures fanInRestriction : nat) (r : nat)
  : result (list Z) :=
  if Z.of_nat fanInRestriction - 1 <? Z.of_nat (length featureSet) then
    Raise (ValueError addMove_msg)
  else
    let allFeatures := np.add (np.arange numFeatures) 1 in
    let candidateFeatureSet := np.setdiff1d allFeatures featureSet in
    featureToAdd <- np.random_choice candidateFeatureSet r ;;
    Ok (np.append featureSet featureToAdd).

(** [exchangeMove]; [r1] is the draw behind [elToExchange] and [r2] the one
    behind [elToAdd]. *)
Definition exchangeMove
  (featureSet : list Z) (numFeatures fanInRestriction : nat) (r1 r2 : nat)
  : result (list Z) :=
  if (length featureSet <? 1)%nat then Raise (ValueError exchangeMove_msg)
  else
    let allFeatures := np.add (np.arange numFeatures) 1 in
    elToExchange <- np.random_choice featureSet r1 ;;
    let allFeaturesNoExchange := np.setdiff1d allFeatures [elToExchange] in
    let featureSet' := np.setdiff1d featureSet [elToExchange] in
    elToAdd <- np.random_choice allFeaturesNoExchange r2 ;;
    Ok (np.append featureSet' elToAdd).

(** [generateInitialFeatureSet]; [draws] are the draws of the sampling. *)
Definition generateInitialFeatureSet
  (numFeatures fanInRestriction : nat) (draws : list nat) : result (list Z) :=
  randomIdx <- np.random_choice_no_replace numFeatures fanInRestriction draws ;;
  let randomIdx' := np.add randomIdx 1 in
  Ok randomIdx'.


(** ** Vocabulary of the statements *)

(** A feature id of the closed interval [1, numFeatures]. *)
Definition in_range (numFeatures : nat) (i : Z) : Prop :=
  1 <= i <= Z.of_nat numFeatures.

(** A feature is named by the feature set when its key is the key of one of
    the set's integers. *)
Definition named (featureSet : list Z) (k : String.string) : bool :=
  existsb (fun i => String.eqb (feature_key i) k) featureSet.

(** The data has a feature under the key of [i]. *)
Definition has_key (data : dataset) (i : Z) : Prop :=
  In (feature_key i) (dict_keys (features data)).

(** Every feature vector of the data has [n] entries. *)
Definition vectors_of_length (data : dataset) (n : nat) : Prop :=
  Forall (fun kv => length (snd kv) = n) (features data).

(** A row of the design matrix: [cols] entries, the first of which is 1. *)
Definition intercept_row (cols : nat) (row : list float) : Prop :=
  length row = cols /\ hd_error row = Some 1%float.

(** A feature set as the search keeps it: distinct ids of
    [1, numFeatures], at least one and at most [fanInRestriction] of them. *)
Definition valid_feature_set
  (numFeatures fanInRestriction : nat) (featureSet : list Z) : Prop :=
  NoDup featureSet /\
  Forall (in_range numFeatures) featureSet /\
  (1 <= length featureSet <= fanInRestriction)%nat.

(** The rows a design matrix of [n] samples has for the columns [feats]:
    row [i] is a one followed by entry [i] of every column, in order. *)
Definition design_rows (n : nat) (feats : dict (list float))
  : list (list float) :=
  map (fun i => 1%float :: map (fun kv => nth i (snd kv) 0%float) feats)
      (seq 0 n).

(** Every column has [n] entries, as a test. *)
Definition all_of_length (n : nat) (feats : dict (list float)) : bool :=
  forallb (fun kv => (length (snd kv) =? n)%nat) feats.

(** The length of the first column that does not have [n] entries ([n]
    when there is none). *)
Definition first_bad_length (n : nat) (feats : dict (list float)) : nat :=
  match find (fun kv => negb (length (snd kv) =? n)%nat) feats with
  | Some kv => length (snd kv)
  | None => n
  end.

(** The names ["X1"], ..., ["Xm"]. *)
Definition column_names (m : nat) : list String.string :=
  map (fun j => feature_key (Z.of_nat j)) (seq 1 m).

(** * Properties *)

(** ** Arrays of floats *)

Lemma chunks_column (v : list float) :
  np.chunks (length v) 1 v = map (fun x => [x]) v.
Proof.
  induction v as [|x v IH]; simpl; [reflexivity|].
  now rewrite IH.
Qed.

Lemma reshape_column (v : list float) :
  np.reshape (np.Vec v) (length v) 1 =
  Ok (np.Mat (length v) 1 (map (fun x => [x]) v)).
Proof.
  unfold np.reshape; simpl.
  rewrite Nat.mul_1_r, Nat.eqb_refl.
  now rewrite chunks_column.
Qed.

Lemma map_repeat {A B : Type} (f : A -> B) (x : A) (n : nat) :
  map f (repeat x n) = repeat (f x) n.
Proof.
  induction n as [|n IH]; simpl; congruence.
Qed.

(** ** Sorted distinct values and set difference *)

Section Unique.

Import np.

Lemma insert_unique_In (x y : Z) (l : list Z) :
  In y (insert_unique x l) <-> y = x \/ In y l.
Proof.
  induction l as [|z l IH]; simpl.
  - intuition.
  - destruct (Z.compare_spec x z) as [Heq|Hlt|Hgt]; simpl.
    + subst z. intuition.
    + intuition.
    + rewrite IH. intuition.
Qed.

Lemma unique_In (y : Z) (l : list Z) : In y (unique l) <-> In y l.
Proof.
  induction l as [|x l IH]; simpl; [tauto|].
  rewrite insert_unique_In, IH. intuition.
Qed.

Lemma insert_unique_sorted (x : Z) (l : list Z) :
  StronglySorted Z.lt l -> StronglySorted Z.lt (insert_unique x l).
Proof.
  induction 1 as [|z l Hs IH Hall]; simpl.
  - repeat constructor.
  - destruct (Z.compare_spec x z) as [Heq|Hlt|Hgt].
    + now constructor.
    + constructor; [now constructor|].
      constructor; [exact Hlt|].
      rewrite Forall_forall in Hall |- *. intros w Hw.
      specialize (Hall w Hw). lia.
    + constructor; [exact IH|].
      rewrite Forall_forall in Hall |- *. intros w Hw.
      apply insert_unique_In in Hw as [->|Hw]; [exact Hgt|now apply Hall].
Qed.

Lemma unique_sorted (l : list Z) : StronglySorted Z.lt (unique l).
Proof.
  induction l as [|x l IH]; simpl.
  - constructor.
  - now apply insert_unique_sorted.
Qed.

Lemma sorted_NoDup (l : list Z) : StronglySorted Z.lt l -> NoDup l.
Proof.
  induction 1 as [|z l Hs IH Hall]; constructor; [|exact IH].
  intro Hin. rewrite Forall_forall in Hall.
  specialize (Hall z Hin). lia.
Qed.

Lemma unique_NoDup (l : list Z) : NoDup (unique l).
Proof. apply sorted_NoDup, unique_sorted. Qed.

Lemma insert_unique_length_new (x : Z) (l : list Z) :
  ~ In x l -> length (insert_unique x l) = S (length l).
Proof.
  induction l as [|z l IH]; simpl; intro Hnin; [reflexivity|].
  destruct (Z.compare_spec x z) as [Heq|Hlt|Hgt]; simpl.
  - exfalso. apply Hnin. now left.
  - reflexivity.
  - rewrite IH; [reflexivity|]. intro Hin. apply Hnin. now right.
Qed.

Lemma unique_length_NoDup (l : list Z) :
  NoDup l -> length (unique l) = length l.
Proof.
  induction 1 as [|x l Hnin Hnd IH]; simpl; [reflexivity|].
  rewrite insert_unique_length_new, IH; [reflexivity|].
  now rewrite unique_In.
Qed.

Lemma not_in1d_true (b : list Z) (x : Z) :
  not_in1d b x = true <-> ~ In x b.
Proof.
  unfold not_in1d. rewrite negb_true_iff.
  split.
  - intros Hex Hin.
    assert (existsb (Z.eqb x) b = true) as Ht; [|congruence].
    apply existsb_exists. exists x. split; [exact Hin|apply Z.eqb_refl].
  - intro Hnin. destruct (existsb (Z.eqb x) b) eqn:E; [|reflexivity].
    apply existsb_exists in E as (w & Hw & Heq).
    apply Z.eqb_eq in Heq. subst w. contradiction.
Qed.

Lemma setdiff1d_In (a b : list Z) (x : Z) :
  In x (setdiff1d a b) <-> In x a /\ ~ In x b.
Proof.
  unfold setdiff1d.
  rewrite filter_In, not_in1d_true, !unique_In. tauto.
Qed.

Lemma NoDup_filter_keeps {A : Type} (f : A -> bool) (l : list A) :
  NoDup l -> NoDup (filter f l).
Proof.
  induction 1 as [|x l Hnin Hnd IH]; simpl; [constructor|].
  destruct (f x); [|exact IH].
  constructor; [|exact IH].
  intro Hin. apply filter_In in Hin. tauto.
Qed.

Lemma setdiff1d_NoDup (a b : list Z) : NoDup (setdiff1d a b).
Proof. apply NoDup_filter_keeps, unique_NoDup. Qed.

(** Masking splits an array in two parts. *)
Lemma filter_split_length {A : Type} (f : A -> bool) (l : list A) :
  (length (filter f l) + length (filter (fun x => negb (f x)) l))%nat
  = length l.
Proof.
  induction l as [|x l IH]; simpl; [reflexivity|].
  destruct (f x); simpl; lia.
Qed.

(** What the set difference leaves is at least the excess of [a] over [b]. *)
Lemma setdiff1d_length_lower (a b : list Z) :
  NoDup a -> (length a <= length (setdiff1d a b) + length b)%nat.
Proof.
  intro Hnd. unfold setdiff1d.
  pose proof (filter_split_length (not_in1d (unique b)) (unique a)) as Hsplit.
  rewrite (unique_length_NoDup a Hnd) in Hsplit.
  enough (length (filter (fun x => negb (not_in1d (unique b) x)) (unique a))
          <= length b)%nat by lia.
  apply NoDup_incl_length.
  - apply NoDup_filter_keeps, unique_NoDup.
  - intros x Hx. apply filter_In in Hx as [_ Hx].
    apply negb_true_iff in Hx.
    destruct (in_dec Z.eq_dec x b) as [Hin|Hnin]; [exact Hin|].
    assert (not_in1d (unique b) x = true) as Ht; [|congruence].
    apply not_in1d_true. now rewrite unique_In.
Qed.

(** Taking one present value out of distinct values leaves one less. *)
Lemma setdiff1d_single_length (a : list Z) (e : Z) :
  NoDup a -> In e a -> S (length (setdiff1d a [e])) = length a.
Proof.
  intros Hnd Hin.
  pose proof (setdiff1d_length_lower a [e] Hnd) as Hlow. simpl in Hlow.
  enough (S (length (setdiff1d a [e])) <= length a)%nat by lia.
  change (length (e :: setdiff1d a [e]) <= length a)%nat.
  apply NoDup_incl_length.
  - constructor; [|apply setdiff1d_NoDup].
    rewrite setdiff1d_In. simpl. tauto.
  - intros x [<-|Hx]; [exact Hin|].
    now apply setdiff1d_In in Hx.
Qed.

Lemma add_arange_In (n : nat) (x : Z) :
  In x (add (arange n) 1) <-> 1 <= x <= Z.of_nat n.
Proof.
  unfold add, arange. rewrite map_map, in_map_iff.
  split.
  - intros (k & <- & Hk). apply in_seq in Hk. lia.
  - intros Hx. exists (Z.to_nat (x - 1)). split; [lia|].
    apply in_seq. lia.
Qed.

Lemma add_arange_length (n : nat) : length (add (arange n) 1) = n.
Proof. unfold add, arange. now rewrite !length_map, length_seq. Qed.

Lemma add_arange_NoDup (n : nat) : NoDup (add (arange n) 1).
Proof.
  unfold add, arange. rewrite map_map.
  apply Finite.Injective_map_NoDup; [|apply seq_NoDup].
  intros i j Hij. lia.
Qed.

Lemma random_choice_Ok_In (a : list Z) (r : nat) (x : Z) :
  random_choice a r = Ok x -> In x a.
Proof.
  destruct a as [|y a]; [discriminate|].
  intro H.
  assert (x = nth (r mod length (y :: a)) (y :: a) 0) as ->
    by (unfold random_choice in H; congruence).
  apply nth_In. apply Nat.mod_upper_bound. discriminate.
Qed.

Lemma random_choice_nonempty (a : list Z) (r : nat) :
  a <> [] -> exists x, random_choice a r = Ok x /\ In x a.
Proof.
  intro Hne. destruct (random_choice a r) as [x|e] eqn:E.
  - exists x. split; [reflexivity|]. eapply random_choice_Ok_In, E.
  - destruct a; [contradiction|discriminate].
Qed.

Lemma random_choice_positive_length (a : list Z) (r : nat) :
  (0 < length a)%nat -> exists x, random_choice a r = Ok x /\ In x a.
Proof.
  intro Hlen. apply random_choice_nonempty.
  intros ->. simpl in Hlen. lia.
Qed.

End Unique.

(** ** The move operators *)

Lemma setdiff1d_nonempty (a b : list Z) :
  NoDup a -> (length b < length a)%nat -> np.setdiff1d a b <> [].
Proof.
  intros Hnd Hlt Hnil.
  pose proof (setdiff1d_length_lower a b Hnd) as Hlow.
  rewrite Hnil in Hlow. simpl in Hlow. lia.
Qed.

Lemma setdiff1d_all_empty (a b : list Z) :
  (forall x, In x a -> In x b) -> np.setdiff1d a b = [].
Proof.
  intro Hall. destruct (np.setdiff1d a b) as [|x l] eqn:E; [reflexivity|].
  assert (In x (np.setdiff1d a b)) as Hx by (rewrite E; now left).
  apply setdiff1d_In in Hx as [Hxa Hxb]. exfalso. auto.
Qed.

(** What a returned exchange is made of. *)
Lemma exchangeMove_Ok_inv (fs : list Z) (nf fir r1 r2 : nat) (res : list Z) :
  exchangeMove fs nf fir r1 r2 = Ok res ->
  exists e a,
    np.random_choice fs r1 = Ok e /\
    np.random_choice (np.setdiff1d (np.add (np.arange nf) 1) [e]) r2 = Ok a /\
    res = np.append (np.setdiff1d fs [e]) a.
Proof.
  unfold exchangeMove.
  destruct (length fs <? 1)%nat; [discriminate|].
  destruct (np.random_choice fs r1) as [e|err] eqn:He; [|discriminate].
  cbn [bind].
  destruct (np.random_choice _ r2) as [a|err] eqn:Ha; [|discriminate].
  cbn [bind]. intros [= <-]. now exists e, a.
Qed.

Lemma addMove_Ok_inv (fs : list Z) (nf fir r : nat) (res : list Z) :
  addMove fs nf fir r = Ok res ->
  Z.of_nat (length fs) <= Z.of_nat fir - 1 /\
  exists x,
    np.random_choice (np.setdiff1d (np.add (np.arange nf) 1) fs) r = Ok x /\
    res = np.append fs x.
Proof.
  unfold addMove.
  destruct (Z.ltb_spec (Z.of_nat fir - 1) (Z.of_nat (length fs)));
    [discriminate|].
  destruct (np.random_choice _ r) as [x|err] eqn:Hx; [|discriminate].
  cbn [bind]. intros [= <-]. split; [lia|]. now exists x.
Qed.

Lemma addMove_in_bound (fs : list Z) (nf fir r : nat) :
  Z.of_nat (length fs) <= Z.of_nat fir - 1 ->
  addMove fs nf fir r =
    (featureToAdd <-
       np.random_choice (np.setdiff1d (np.add (np.arange nf) 1) fs) r ;;
     Ok (np.append fs featureToAdd)).
Proof.
  intro Hle. unfold addMove.
  destruct (Z.ltb_spec (Z.of_nat fir - 1) (Z.of_nat (length fs)));
    [lia|reflexivity].
Qed.

(** C1, as the code has it: whatever the feature set and the draws, the
    set [exchangeMove] returns never contains the element it removed.  The
    returned array is the feature set without the removed element followed
    by the added one, which is an id of [1, numFeatures] other than the
    removed element. *)
Theorem exchangeMove_never_returns_removed
  (featureSet : list Z) (numFeatures fanInRestriction r1 r2 : nat)
  (elToExchange : Z) (res : list Z) :
  np.random_choice featureSet r1 = Ok elToExchange ->
  exchangeMove featureSet numFeatures fanInRestriction r1 r2 = Ok res ->
  exists elToAdd,
    res = np.append (np.setdiff1d featureSet [elToExchange]) elToAdd /\
    in_range numFeatures elToAdd /\
    elToAdd <> elToExchange /\
    ~ In elToExchange res.
Proof.
  intros He Hres.
  apply exchangeMove_Ok_inv in Hres as (e' & a & He' & Ha & ->).
  assert (e' = elToExchange) as -> by congruence.
  apply random_choice_Ok_In in Ha.
  apply setdiff1d_In in Ha as [Hall Hne].
  apply add_arange_In in Hall.
  assert (a <> elToExchange) as Hae by (intros ->; apply Hne; now left).
  exists a. repeat split; try (apply Hall); [exact Hae|].
  unfold np.append. rewrite in_app_iff, setdiff1d_In. simpl.
  intros [[_ Hin]|[Heq|[]]]; [apply Hin; now left|congruence].
Qed.

Lemma exchangeMove_never_returns_removed_witness :
  exists elToAdd,
    [2; 6; 5] = np.append (np.setdiff1d [2; 4; 6] [4]) elToAdd /\
    in_range 6 elToAdd /\ elToAdd <> 4 /\ ~ In 4 [2; 6; 5].
Proof.
  apply (exchangeMove_never_returns_removed [2; 4; 6] 6 3 1 3 4 [2; 6; 5]);
    reflexivity.
Defined.

(** C1, as stated, does not hold: no feature set of size at least 1 and no
    pair of draws make [exchangeMove] return a set that contains the
    element it removed. *)
Lemma exchangeMove_returns_removed_refuted :
  ~ (exists (featureSet : list Z) (numFeatures fanInRestriction r1 r2 : nat)
            (elToExchange : Z) (res : list Z),
        (1 <= length featureSet)%nat /\
        np.random_choice featureSet r1 = Ok elToExchange /\
        exchangeMove featureSet numFeatures fanInRestriction r1 r2 = Ok res /\
        In elToExchange res).
Proof.
  intros (fs & nf & fir & r1 & r2 & e & res & _ & He & Hres & Hin).
  apply exchangeMove_Ok_inv in Hres as (e' & a & He' & Ha & ->).
  rewrite He in He'. injection He' as <-.
  apply in_app_or in Hin as [Hin|[<-|[]]].
  - apply setdiff1d_In in Hin as [_ Hin]. apply Hin. now left.
  - apply random_choice_Ok_In, setdiff1d_In in Ha as [_ Ha].
    apply Ha. now left.
Qed.

(** The exchange may add an id that is still in the set: with
    [{2, 4, 6}], 2 is removed and 4 is added next to the 4 already there. *)
Example exchangeMove_may_repeat_member :
  exchangeMove [2; 4; 6] 6 3 0 2 = Ok [4; 6; 4].
Proof. reflexivity. Qed.

(** C3: for every feature set of distinct ids of [1, numFeatures] with
    [|featureSet| <= fanInRestriction - 1] and [numFeatures > |featureSet|],
    and every draw, [addMove] returns the feature set followed by one new
    element: the result has [|featureSet| + 1] distinct entries, contains
    the feature set, and the added element lies in [1, numFeatures] and not
    in the feature set. *)
Theorem addMove_adds_one_new_feature
  (featureSet : list Z) (numFeatures fanInRestriction r : nat) :
  NoDup featureSet ->
  Forall (in_range numFeatures) featureSet ->
  Z.of_nat (length featureSet) <= Z.of_nat fanInRestriction - 1 ->
  (length featureSet < numFeatures)%nat ->
  exists featureToAdd res,
    addMove featureSet numFeatures fanInRestriction r = Ok res /\
    res = np.append featureSet featureToAdd /\
    length res = (length featureSet + 1)%nat /\
    NoDup res /\
    incl featureSet res /\
    In featureToAdd res /\
    ~ In featureToAdd featureSet /\
    in_range numFeatures featureToAdd.
Proof.
  intros Hnd _ Hfan Hroom.
  rewrite addMove_in_bound by exact Hfan.
  destruct (random_choice_nonempty
              (np.setdiff1d (np.add (np.arange numFeatures) 1) featureSet) r)
    as (x & -> & Hx).
  { apply setdiff1d_nonempty; [apply add_arange_NoDup|].
    now rewrite add_arange_length. }
  apply setdiff1d_In in Hx as [Hall Hnew]. apply add_arange_In in Hall.
  cbn [bind]. exists x, (np.append featureSet x). unfold np.append.
  split; [reflexivity|]. split; [reflexivity|].
  split; [rewrite length_app; reflexivity|].
  split.
  { apply NoDup_app; [exact Hnd|repeat constructor; simpl; tauto|].
    intros y Hy [<-|[]]. contradiction. }
  split; [intros y Hy; apply in_app_iff; now left|].
  split; [apply in_app_iff; right; now left|].
  split; [exact Hnew|exact Hall].
Qed.

Lemma addMove_adds_one_new_feature_witness :
  exists featureToAdd res,
    addMove [2; 4; 6] 6 4 1 = Ok res /\
    res = np.append [2; 4; 6] featureToAdd /\
    length res = (length [2; 4; 6] + 1)%nat /\
    NoDup res /\
    incl [2; 4; 6] res /\
    In featureToAdd res /\
    ~ In featureToAdd [2; 4; 6] /\
    in_range 6 featureToAdd.
Proof.
  apply (addMove_adds_one_new_feature [2; 4; 6] 6 4 1).
  - repeat constructor; simpl; intuition lia.
  - repeat constructor; unfold in_range; simpl; lia.
  - simpl; lia.
  - simpl; lia.
Defined.

(** C4: for every feature set of distinct ids with
    [2 <= |featureSet| <= fanInRestriction] and every draw, [deleteMove]
    returns a set with [|featureSet| - 1] elements whose members are the
    members of the feature set other than the drawn element. *)
Theorem deleteMove_removes_drawn_element
  (featureSet : list Z) (numFeatures fanInRestriction r : nat) :
  NoDup featureSet ->
  (2 <= length featureSet)%nat ->
  (length featureSet <= fanInRestriction)%nat ->
  exists elToDel res,
    np.random_choice featureSet r = Ok elToDel /\
    In elToDel featureSet /\
    deleteMove featureSet numFeatures fanInRestriction r = Ok res /\
    length res = (length featureSet - 1)%nat /\
    NoDup res /\
    (forall x, In x res <-> In x featureSet /\ x <> elToDel).
Proof.
  intros Hnd Hlen _. unfold deleteMove.
  destruct (Nat.ltb_spec (length featureSet) 2); [lia|].
  destruct (random_choice_positive_length featureSet r) as (e & He & Hin);
    [lia|].
  rewrite He. cbn [bind].
  exists e, (np.setdiff1d featureSet [e]).
  split; [reflexivity|]. split; [exact Hin|]. split; [reflexivity|].
  split; [pose proof (setdiff1d_single_length featureSet e Hnd Hin); lia|].
  split; [apply setdiff1d_NoDup|].
  intro x. rewrite setdiff1d_In. simpl. intuition congruence.
Qed.

Lemma deleteMove_removes_drawn_element_witness :
  exists elToDel res,
    np.random_choice [6; 2; 4] 0 = Ok elToDel /\
    In elToDel [6; 2; 4] /\
    deleteMove [6; 2; 4] 6 3 0 = Ok res /\
    length res = (length [6; 2; 4] - 1)%nat /\
    NoDup res /\
    (forall x, In x res <-> In x [6; 2; 4] /\ x <> elToDel).
Proof.
  apply (deleteMove_removes_drawn_element [6; 2; 4] 6 3 0).
  - repeat constructor; simpl; intuition lia.
  - simpl; lia.
  - simpl; lia.
Defined.

Lemma random_choice_Raise_inv (a : list Z) (r : nat) (e : exn) :
  np.random_choice a r = Raise e ->
  a = [] /\ e = ValueError np.choice_empty_msg.
Proof.
  destruct a as [|y a]; simpl; [|discriminate].
  intros [= <-]. now split.
Qed.

Lemma deleteMove_raises_iff (fs : list Z) (nf fir r : nat) :
  deleteMove fs nf fir r = Raise (ValueError deleteMove_msg) <->
  (length fs < 2)%nat.
Proof.
  unfold deleteMove.
  destruct (Nat.ltb_spec (length fs) 2) as [Hlt|Hge].
  - tauto.
  - split; [|lia].
    destruct (np.random_choice fs r) as [e|err] eqn:E; cbn [bind];
      [discriminate|].
    apply random_choice_Raise_inv in E as [_ ->]. discriminate.
Qed.

Lemma addMove_raises_iff (fs : list Z) (nf fir r : nat) :
  addMove fs nf fir r = Raise (ValueError addMove_msg) <->
  Z.of_nat (length fs) > Z.of_nat fir - 1.
Proof.
  unfold addMove.
  destruct (Z.ltb_spec (Z.of_nat fir - 1) (Z.of_nat (length fs))) as [Hlt|Hge].
  - split; [lia|reflexivity].
  - split; [|lia].
    destruct (np.random_choice _ r) as [e|err] eqn:E; cbn [bind];
      [discriminate|].
    apply random_choice_Raise_inv in E as [_ ->]. discriminate.
Qed.

Lemma exchangeMove_raises_iff (fs : list Z) (nf fir r1 r2 : nat) :
  exchangeMove fs nf fir r1 r2 = Raise (ValueError exchangeMove_msg) <->
  fs = [].
Proof.
  unfold exchangeMove.
  destruct fs as [|x fs]; [simpl; tauto|].
  change (length (x :: fs) <? 1)%nat with false. cbv iota.
  split; [|discriminate].
  destruct (np.random_choice (x :: fs) r1) as [e|err] eqn:E1; cbn [bind].
  - destruct (np.random_choice _ r2) as [a|err] eqn:E2; cbn [bind];
      [discriminate|].
    apply random_choice_Raise_inv in E2 as [_ ->]. discriminate.
  - apply random_choice_Raise_inv in E1 as [_ ->]. discriminate.
Qed.

(** C5: each move raises its constraint violation, a [ValueError] carrying
    the move's own message, exactly when its precondition fails:
    [deleteMove] when [|featureSet| < 2], [addMove] when
    [|featureSet| > fanInRestriction - 1], [exchangeMove] when the feature
    set is empty.  No feature set is returned in those cases. *)
Theorem moves_raise_at_precondition_boundary
  (featureSet : list Z) (numFeatures fanInRestriction r1 r2 : nat) :
  (deleteMove featureSet numFeatures fanInRestriction r1
     = Raise (ValueError deleteMove_msg)
   <-> (length featureSet < 2)%nat) /\
  (addMove featureSet numFeatures fanInRestriction r1
     = Raise (ValueError addMove_msg)
   <-> Z.of_nat (length featureSet) > Z.of_nat fanInRestriction - 1) /\
  (exchangeMove featureSet numFeatures fanInRestriction r1 r2
     = Raise (ValueError exchangeMove_msg)
   <-> featureSet = []).
Proof.
  split; [apply deleteMove_raises_iff|].
  split; [apply addMove_raises_iff|apply exchangeMove_raises_iff].
Qed.

(** The scenario of the specification: at the fan-in ceiling [addMove]
    raises, on a single feature [deleteMove] raises, on no feature
    [exchangeMove] raises. *)
Example moves_raise_scenarios :
  addMove [2; 4; 6] 6 3 0 = Raise (ValueError addMove_msg) /\
  deleteMove [5] 6 3 0 = Raise (ValueError deleteMove_msg) /\
  exchangeMove [] 6 3 0 0 = Raise (ValueError exchangeMove_msg).
Proof. repeat split. Qed.

(** C10: when the fan-in precondition holds but the feature set already
    contains every id of [1, numFeatures], [addMove] raises the error of
    sampling an empty pool; and whenever [addMove] returns, the result is
    the feature set followed by an id of [1, numFeatures] that was not in
    it. *)
Theorem addMove_empty_pool_raises
  (featureSet : list Z) (numFeatures fanInRestriction r : nat) :
  (Z.of_nat (length featureSet) <= Z.of_nat fanInRestriction - 1 ->
   (forall i, in_range numFeatures i -> In i featureSet) ->
   addMove featureSet numFeatures fanInRestriction r
     = Raise (ValueError np.choice_empty_msg)) /\
  (forall res,
     addMove featureSet numFeatures fanInRestriction r = Ok res ->
     exists featureToAdd,
       res = np.append featureSet featureToAdd /\
       in_range numFeatures featureToAdd /\
       ~ In featureToAdd featureSet).
Proof.
  split.
  - intros Hfan Hall. rewrite addMove_in_bound by exact Hfan.
    rewrite setdiff1d_all_empty; [reflexivity|].
    intros x Hx. apply Hall. now apply add_arange_In.
  - intros res Hres.
    apply addMove_Ok_inv in Hres as (_ & x & Hx & ->).
    apply random_choice_Ok_In, setdiff1d_In in Hx as [Hall Hnew].
    apply add_arange_In in Hall. now exists x.
Qed.

Lemma addMove_empty_pool_raises_witness :
  addMove [2; 1] 2 5 0 = Raise (ValueError np.choice_empty_msg) /\
  exists featureToAdd,
    [2; 4; 6; 3] = np.append [2; 4; 6] featureToAdd /\
    in_range 6 featureToAdd /\
    ~ In featureToAdd [2; 4; 6].
Proof.
  split.
  - apply (proj1 (addMove_empty_pool_raises [2; 1] 2 5 0)).
    + simpl; lia.
    + unfold in_range; simpl; intros i Hi; lia.
  - apply (proj2 (addMove_empty_pool_raises [2; 4; 6] 6 4 1) [2; 4; 6; 3]).
    reflexivity.
Defined.

(** ** The initial feature set *)

Section Sampling.

Import np.

Lemma remove_at_length {A : Type} (i : nat) (l : list A) :
  (i < length l)%nat -> S (length (remove_at i l)) = length l.
Proof.
  revert i. induction l as [|x l IH]; intros i Hi; simpl in Hi; [lia|].
  destruct i as [|j]; simpl; [reflexivity|].
  rewrite IH; [reflexivity|lia].
Qed.

Lemma remove_at_In {A : Type} (i : nat) (l : list A) (y : A) :
  In y (remove_at i l) -> In y l.
Proof.
  revert i. induction l as [|x l IH]; intros i Hy; simpl in *; [destruct i; exact Hy|].
  destruct i as [|j]; [now right|].
  destruct Hy as [->|Hy]; [now left|right; eapply IH, Hy].
Qed.

Lemma remove_at_NoDup {A : Type} (i : nat) (l : list A) (d : A) :
  NoDup l -> (i < length l)%nat ->
  NoDup (remove_at i l) /\ ~ In (nth i l d) (remove_at i l).
Proof.
  intro Hnd. revert i.
  induction Hnd as [|x l Hnin Hnd IH]; intros i Hi; simpl in Hi; [lia|].
  destruct i as [|j]; simpl.
  - split; assumption.
  - destruct (IH j) as [IHnd IHnin]; [lia|].
    split.
    + constructor; [|exact IHnd].
      intro Hin. apply Hnin. eapply remove_at_In, Hin.
    + intros [Heq|Hin]; [|contradiction].
      apply Hnin. rewrite Heq. apply nth_In. lia.
Qed.

Lemma sample_without_replacement_spec
  (size : nat) (pool : list Z) (draws : list nat) :
  NoDup pool -> (size <= length pool)%nat ->
  length (sample_without_replacement pool size draws) = size /\
  NoDup (sample_without_replacement pool size draws) /\
  incl (sample_without_replacement pool size draws) pool.
Proof.
  revert pool draws.
  induction size as [|size IH]; intros pool draws Hnd Hsize; simpl.
  - repeat split; [constructor|intros x []].
  - destruct pool as [|p pool']; [simpl in Hsize; lia|].
    set (pool := p :: pool') in *.
    set (i := (hd 0%nat draws mod length pool)%nat).
    assert (i < length pool)%nat as Hi
      by (apply Nat.mod_upper_bound; discriminate).
    destruct (remove_at_NoDup i pool 0 Hnd Hi) as [Hnd' Hnin].
    pose proof (remove_at_length i pool Hi) as Hlen.
    destruct (IH (remove_at i pool) (tl draws) Hnd') as (IHlen & IHnd & IHincl);
      [lia|].
    split; [simpl; now rewrite IHlen|].
    split.
    + constructor; [|exact IHnd].
      intro Hin. apply Hnin, IHincl, Hin.
    + intros x [<-|Hx]; [now apply nth_In|].
      eapply remove_at_In, IHincl, Hx.
Qed.

Lemma arange_NoDup (n : nat) : NoDup (arange n).
Proof.
  unfold arange. apply Finite.Injective_map_NoDup; [|apply seq_NoDup].
  intros i j Hij. lia.
Qed.

Lemma arange_In (n : nat) (x : Z) : In x (arange n) <-> 0 <= x < Z.of_nat n.
Proof.
  unfold arange. rewrite in_map_iff. split.
  - intros (k & <- & Hk). apply in_seq in Hk. lia.
  - intro Hx. exists (Z.to_nat x). split; [lia|]. apply in_seq. lia.
Qed.

End Sampling.

(** C9: when [fanInRestriction <= numFeatures], for all draws
    [generateInitialFeatureSet] returns exactly [fanInRestriction] pairwise
    distinct integers of [1, numFeatures], each being a sampled value of
    [0, numFeatures) plus one; when [fanInRestriction > numFeatures] it
    raises the [ValueError] of the sampling (a sample larger than the
    population, or an empty population) and returns nothing. *)
Theorem generateInitialFeatureSet_spec
  (numFeatures fanInRestriction : nat) (draws : list nat) :
  ((fanInRestriction <= numFeatures)%nat ->
   exists randomIdx,
     np.random_choice_no_replace numFeatures fanInRestriction draws
       = Ok randomIdx /\
     Forall (fun i => 0 <= i < Z.of_nat numFeatures) randomIdx /\
     generateInitialFeatureSet numFeatures fanInRestriction draws
       = Ok (map (fun i => i + 1) randomIdx) /\
     length (map (fun i => i + 1) randomIdx) = fanInRestriction /\
     NoDup (map (fun i => i + 1) randomIdx) /\
     Forall (in_range numFeatures) (map (fun i => i + 1) randomIdx)) /\
  ((fanInRestriction > numFeatures)%nat ->
   generateInitialFeatureSet numFeatures fanInRestriction draws
     = Raise (ValueError (if (numFeatures =? 0)%nat
                          then np.choice_nonpositive_msg
                          else np.choice_larger_sample_msg))).
Proof.
  unfold generateInitialFeatureSet, np.random_choice_no_replace.
  split.
  - intro Hle.
    replace ((numFeatures =? 0) && negb (fanInRestriction =? 0))%nat
      with false.
    2:{ symmetry. apply andb_false_iff.
        destruct (Nat.eqb_spec numFeatures 0); [right|now left].
        apply negb_false_iff, Nat.eqb_eq. lia. }
    destruct (Nat.ltb_spec numFeatures fanInRestriction); [lia|].
    cbn [bind].
    destruct (sample_without_replacement_spec fanInRestriction
                (np.arange numFeatures) draws) as (Hlen & Hnd & Hincl).
    { apply arange_NoDup. }
    { unfold np.arange. now rewrite length_map, length_seq. }
    eexists. split; [reflexivity|].
    assert (Forall (fun i => 0 <= i < Z.of_nat numFeatures)
              (np.sample_without_replacement (np.arange numFeatures)
                 fanInRestriction draws)) as Hrange.
    { apply Forall_forall. intros x Hx. now apply arange_In, Hincl. }
    split; [exact Hrange|].
    split; [reflexivity|].
    split; [now rewrite length_map|].
    split.
    + apply Finite.Injective_map_NoDup; [|exact Hnd]. intros i j Hij. lia.
    + apply Forall_forall. intros y Hy.
      apply in_map_iff in Hy as (x & <- & Hx).
      rewrite Forall_forall in Hrange. specialize (Hrange x Hx).
      unfold in_range. lia.
  - intro Hgt.
    destruct (Nat.eqb_spec numFeatures 0) as [Hz|Hnz]; cbn [andb].
    + destruct (Nat.eqb_spec fanInRestriction 0); [lia|reflexivity].
    + destruct (Nat.ltb_spec numFeatures fanInRestriction); [reflexivity|lia].
Qed.

Lemma generateInitialFeatureSet_spec_witness :
  (exists randomIdx,
     np.random_choice_no_replace 6 3 [5; 5; 5]%nat = Ok randomIdx /\
     Forall (fun i => 0 <= i < Z.of_nat 6) randomIdx /\
     generateInitialFeatureSet 6 3 [5; 5; 5]%nat
       = Ok (map (fun i => i + 1) randomIdx) /\
     length (map (fun i => i + 1) randomIdx) = 3%nat /\
     NoDup (map (fun i => i + 1) randomIdx) /\
     Forall (in_range 6) (map (fun i => i + 1) randomIdx)) /\
  generateInitialFeatureSet 3 6 [5; 5; 5]%nat
    = Raise (ValueError np.choice_larger_sample_msg).
Proof.
  split.
  - apply (proj1 (generateInitialFeatureSet_spec 6 3 [5; 5; 5]%nat)). lia.
  - apply (proj2 (generateInitialFeatureSet_spec 3 6 [5; 5; 5]%nat)). lia.
Defined.

(** ** Dictionaries *)

Section Dict.

Context {V : Type}.

Lemma dict_get_Ok_key (d : dict V) (k : String.string) (v : V) :
  dict_get d k = Ok v -> In (k, v) d.
Proof.
  induction d as [|[k' v'] d IH]; simpl; [discriminate|].
  destruct (String.eqb_spec k' k) as [->|Hne].
  - intros [= ->]. now left.
  - intro H. right. now apply IH.
Qed.

Lemma dict_get_of_key (d : dict V) (k : String.string) :
  In k (dict_keys d) -> exists v, dict_get d k = Ok v /\ In (k, v) d.
Proof.
  induction d as [|[k' v'] d IH]; simpl; [intros []|].
  destruct (String.eqb_spec k' k) as [->|Hne].
  - intros _. exists v'. split; [reflexivity|now left].
  - intros [Heq|Hin]; [contradiction|].
    destruct (IH Hin) as (v & Hv & Hd). exists v. split; [exact Hv|now right].
Qed.

Lemma dict_get_missing (d : dict V) (k : String.string) :
  ~ In k (dict_keys d) -> dict_get d k = Raise (KeyError k).
Proof.
  induction d as [|[k' v'] d IH]; simpl; [reflexivity|].
  intro Hnin. destruct (String.eqb_spec k' k) as [->|Hne]; [tauto|].
  apply IH. tauto.
Qed.

Lemma dict_get_Ok_iff_key (d : dict V) (k : String.string) :
  In k (dict_keys d) <-> exists v, dict_get d k = Ok v.
Proof.
  split.
  - intro Hin. destruct (dict_get_of_key d k Hin) as (v & Hv & _). now exists v.
  - intros (v & Hv). apply dict_get_Ok_key in Hv.
    unfold dict_keys. apply in_map_iff. now exists (k, v).
Qed.

Lemma dict_get_set (d : dict V) (k k' : String.string) (v : V) :
  dict_get (dict_set d k v) k' =
  if String.eqb k k' then Ok v else dict_get d k'.
Proof.
  induction d as [|[k0 v0] d IH]; simpl.
  - reflexivity.
  - destruct (String.eqb_spec k0 k) as [->|Hne]; simpl.
    + now destruct (String.eqb k k').
    + destruct (String.eqb_spec k0 k') as [->|Hne'].
      * destruct (String.eqb_spec k k'); [congruence|reflexivity].
      * exact IH.
Qed.

Lemma dict_set_keys_NoDup (d : dict V) (k : String.string) (v : V) :
  NoDup (dict_keys d) -> NoDup (dict_keys (dict_set d k v)).
Proof.
  induction d as [|[k0 v0] d IH]; simpl; intro Hnd.
  - repeat constructor. intros [].
  - destruct (String.eqb_spec k0 k) as [->|Hne]; simpl; [exact Hnd|].
    inversion Hnd as [|? ? Hnin Hnd']; subst.
    constructor; [|now apply IH].
    intro Hin. apply dict_get_Ok_iff_key in Hin as (w & Hw).
    rewrite dict_get_set in Hw.
    destruct (String.eqb_spec k k0); [congruence|].
    apply Hnin, dict_get_Ok_iff_key. now exists w.
Qed.

End Dict.

(** ** Data selection *)

Lemma named_true (featureSet : list Z) (k : String.string) :
  named featureSet k = true <->
  exists i, In i featureSet /\ feature_key i = k.
Proof.
  unfold named. rewrite existsb_exists.
  split; intros (i & Hi & Hk); exists i; (split; [exact Hi|]);
    now apply String.eqb_eq.
Qed.

Lemma selectData_loop_present
  (data : dataset) (featureSet : list Z) (partialData : dataset) :
  Forall (has_key data) featureSet ->
  exists selected,
    selectData_loop data featureSet partialData = Ok selected /\
    response selected = response partialData /\
    (NoDup (dict_keys (features partialData)) ->
     NoDup (dict_keys (features selected))) /\
    forall k,
      dict_get (features selected) k =
      if named featureSet k then dict_get (features data) k
      else dict_get (features partialData) k.
Proof.
  intro Hall. revert partialData.
  induction Hall as [|i fs Hi Hall IH]; intro pd; cbn [selectData_loop].
  - exists pd. repeat split; auto.
  - destruct (dict_get_of_key _ _ Hi) as (v & Hv & _).
    rewrite Hv. cbn [bind].
    destruct (IH (mkDataset (dict_set (features pd) (feature_key i) v)
                            (response pd)))
      as (sel & Hsel & Hresp & Hnd & Hget).
    exists sel. split; [exact Hsel|]. split; [exact Hresp|].
    split; [intro Hpd; apply Hnd; now apply dict_set_keys_NoDup|].
    intro k. rewrite Hget. unfold named. cbn [existsb features].
    fold (named fs k).
    destruct (named fs k).
    + now rewrite orb_true_r.
    + rewrite orb_false_r, dict_get_set.
      destruct (String.eqb_spec (feature_key i) k) as [<-|Hne];
        [now rewrite Hv|reflexivity].
Qed.

Lemma selectData_loop_missing
  (data : dataset) (featureSet : list Z) (partialData : dataset) :
  Exists (fun i => ~ has_key data i) featureSet ->
  exists i,
    In i featureSet /\ ~ has_key data i /\
    selectData_loop data featureSet partialData
      = Raise (KeyError (feature_key i)).
Proof.
  revert partialData.
  induction featureSet as [|j fs IH]; intros pd Hex; [inversion Hex|].
  cbn [selectData_loop].
  destruct (in_dec String.string_dec (feature_key j)
              (dict_keys (features data))) as [Hin|Hnin].
  - destruct (dict_get_of_key _ _ Hin) as (v & Hv & _).
    rewrite Hv. cbn [bind].
    inversion Hex as [? ? Hj|? ? Hfs]; subst; [contradiction|].
    destruct (IH (mkDataset (dict_set (features pd) (feature_key j) v)
                            (response pd)) Hfs)
      as (i & Hi & Hmiss & Hraise).
    exists i. split; [now right|]. now split.
  - exists j. split; [now left|]. split; [exact Hnin|].
    now rewrite (dict_get_missing _ _ Hnin).
Qed.

Lemma has_key_all_or_missing (data : dataset) (featureSet : list Z) :
  Forall (has_key data) featureSet \/
  Exists (fun i => ~ has_key data i) featureSet.
Proof.
  induction featureSet as [|i fs [IH|IH]].
  - left. constructor.
  - destruct (in_dec String.string_dec (feature_key i)
                (dict_keys (features data))) as [Hin|Hnin].
    + left. now constructor.
    + right. now constructor.
  - right. now constructor 2.
Qed.

(** C8: [selectData] raises a [KeyError] if and only if some integer of the
    feature set has no key ["X" + i] among the features of the data;
    otherwise it returns a structure whose response is empty and whose
    features have exactly the named keys, each with the value the data has
    for it. *)
Theorem selectData_restricts_features (data : dataset) (featureSet : list Z) :
  (is_KeyError (selectData data featureSet) <->
   exists i, In i featureSet /\ ~ has_key data i) /\
  ((forall i, In i featureSet -> has_key data i) ->
   exists selected,
     selectData data featureSet = Ok selected /\
     response selected = [] /\
     NoDup (dict_keys (features selected)) /\
     (forall k, In k (dict_keys (features selected)) <->
                exists i, In i featureSet /\ feature_key i = k) /\
     (forall k, dict_get (features selected) k =
                if named featureSet k then dict_get (features data) k
                else Raise (KeyError k))).
Proof.
  assert (Hok : Forall (has_key data) featureSet ->
     exists selected,
       selectData data featureSet = Ok selected /\
       response selected = [] /\
       NoDup (dict_keys (features selected)) /\
       (forall k, In k (dict_keys (features selected)) <->
                  exists i, In i featureSet /\ feature_key i = k) /\
       (forall k, dict_get (features selected) k =
                  if named featureSet k then dict_get (features data) k
                  else Raise (KeyError k))).
  { intro Hall.
    destruct (selectData_loop_present data featureSet (mkDataset [] []) Hall)
      as (sel & Hsel & Hresp & Hnd & Hget).
    exists sel. split; [exact Hsel|]. split; [exact Hresp|].
    split; [apply Hnd; constructor|].
    split; [|exact Hget].
    intro k. rewrite dict_get_Ok_iff_key, <- named_true, Hget.
    destruct (named featureSet k) eqn:En.
    - split; [reflexivity|intros _].
      apply named_true in En as (i & Hi & <-).
      rewrite Forall_forall in Hall.
      destruct (dict_get_of_key _ _ (Hall i Hi)) as (v & Hv & _).
      now exists v.
    - split; [intros (v & Hv); discriminate|discriminate]. }
  split.
  - split.
    + intro Herr.
      destruct (has_key_all_or_missing data featureSet) as [Hall|Hex].
      * destruct (Hok Hall) as (sel & Hsel & _).
        rewrite Hsel in Herr. destruct Herr.
      * apply Exists_exists in Hex as (i & Hi & Hmiss). now exists i.
    + intros (i & Hi & Hmiss).
      destruct (selectData_loop_missing data featureSet (mkDataset [] []))
        as (j & _ & _ & Hraise).
      { apply Exists_exists. now exists i. }
      unfold selectData. rewrite Hraise. exact I.
  - intro Hall. apply Hok, Forall_forall, Hall.
Qed.

Lemma selectData_restricts_features_witness :
  exists selected,
    selectData
      (mkDataset [("X1", [2; 3]%float); ("X2", [5; 6]%float);
                  ("X3", [8; 9]%float)]
                 [("y", [1; 0]%float)])
      [3; 1] = Ok selected /\
    response selected = [] /\
    NoDup (dict_keys (features selected)) /\
    (forall k, In k (dict_keys (features selected)) <->
               exists i, In i [3; 1] /\ feature_key i = k) /\
    (forall k, dict_get (features selected) k =
               if named [3; 1] k
               then dict_get [("X1", [2; 3]%float); ("X2", [5; 6]%float);
                              ("X3", [8; 9]%float)] k
               else Raise (KeyError k)).
Proof.
  apply (proj2 (selectData_restricts_features
                  (mkDataset [("X1", [2; 3]%float); ("X2", [5; 6]%float);
                              ("X3", [8; 9]%float)]
                             [("y", [1; 0]%float)])
                  [3; 1])).
  intros i [<-|[<-|[]]]; unfold has_key; simpl; tauto.
Defined.

(** A missing key is reported by name, and a present response is dropped. *)
Example selectData_scenarios :
  selectData (mkDataset [("X1", [2; 3]%float)] [("y", [1; 0]%float)]) [1; 4]
    = Raise (KeyError "X4") /\
  selectData (mkDataset [("X1", [2; 3]%float)] [("y", [1; 0]%float)]) [1; 1]
    = Ok (mkDataset [("X1", [2; 3]%float)] []).
Proof. split; reflexivity. Qed.

(** ** The prior mean *)

(** C7: for every feature set, the empty one included, [constructMuMatrix]
    returns a column vector of shape [(|featureSet| + 1, 1)] whose entries
    are all zero; two feature sets of the same cardinality give the same
    vector. *)
Theorem constructMuMatrix_zero_column (featureSet : list Z) :
  constructMuMatrix featureSet =
    Ok (np.Mat (length featureSet + 1) 1
          (repeat [0%float] (length featureSet + 1)))
  /\ (forall featureSet' : list Z,
        length featureSet' = length featureSet ->
        constructMuMatrix featureSet' = constructMuMatrix featureSet).
Proof.
  assert (Hval : forall fs : list Z,
             constructMuMatrix fs =
             Ok (np.Mat (length fs + 1) 1 (repeat [0%float] (length fs + 1)))).
  { intro fs. unfold constructMuMatrix, np.zeros.
    set (n := (length fs + 1)%nat).
    pose proof (reshape_column (repeat 0%float n)) as H.
    rewrite repeat_length, map_repeat in H. exact H. }
  split; [apply Hval|].
  intros fs' Hlen. now rewrite !Hval, Hlen.
Qed.

Lemma constructMuMatrix_zero_column_witness :
  constructMuMatrix [2; 5] = constructMuMatrix [1; 3].
Proof.
  apply (proj2 (constructMuMatrix_zero_column [1; 3]) [2; 5]).
  reflexivity.
Defined.

(** ** The design matrix *)

Lemma stack_features_rows
  (data : dataset) (n : nat) (keys : list String.string)
  (r : nat) (m : list (list float)) :
  (forall k, In k keys ->
     exists v, dict_get (features data) k = Ok v /\ length v = n) ->
  exists vs,
    stack_features data keys (np.Mat r n m)
      = Ok (np.Mat (r + length keys) n (m ++ vs)) /\
    length vs = length keys.
Proof.
  revert r m.
  induction keys as [|k keys IH]; intros r m Hkeys; cbn [stack_features].
  - exists []. now rewrite Nat.add_0_r, app_nil_r.
  - destruct (Hkeys k (or_introl eq_refl)) as (v & Hv & Hlen).
    rewrite Hv. cbn [bind]. unfold np.vstack. cbn [np.atleast_2d].
    rewrite Hlen, Nat.eqb_refl. cbn [bind].
    destruct (IH (r + 1)%nat (m ++ [v])) as (vs & Hvs & Hlvs).
    { intros k' Hk'. apply Hkeys. now right. }
    exists (v :: vs). rewrite Hvs. split.
    + f_equal. f_equal; [simpl; lia|].
      now rewrite <- app_assoc.
    + simpl. now rewrite Hlvs.
Qed.

Lemma stack_features_from_ones
  (data : dataset) (n : nat) (k : String.string) (keys : list String.string) :
  (forall k', In k' (k :: keys) ->
     exists v, dict_get (features data) k' = Ok v /\ length v = n) ->
  exists vs,
    stack_features data (k :: keys) (np.ones n)
      = Ok (np.Mat (S (length (k :: keys))) n (repeat 1%float n :: vs)) /\
    length vs = length (k :: keys).
Proof.
  intro Hkeys. cbn [stack_features].
  destruct (Hkeys k (or_introl eq_refl)) as (v & Hv & Hlen).
  rewrite Hv. cbn [bind]. unfold np.vstack, np.ones. cbn [np.atleast_2d].
  rewrite Hlen, repeat_length, Nat.eqb_refl. cbn [bind].
  destruct (stack_features_rows data n keys (1 + 1)
              ([repeat 1%float n] ++ [v])) as (vs & Hvs & Hlvs).
  { intros k' Hk'. apply Hkeys. now right. }
  exists (v :: vs). rewrite Hvs. split; [reflexivity|].
  simpl. now rewrite Hlvs.
Qed.

Lemma transpose_intercept_rows (n : nat) (vs : list (list float)) :
  Forall (intercept_row (S (length vs)))
    (map (fun j => map (fun row => nth j row 0%float) (repeat 1%float n :: vs))
         (seq 0 n)).
Proof.
  apply Forall_forall. intros row Hrow.
  apply in_map_iff in Hrow as (j & <- & Hj). apply in_seq in Hj.
  split.
  - now rewrite length_map.
  - simpl. rewrite nth_repeat_lt by lia. reflexivity.
Qed.

Lemma dataset_keys_have_vectors (data : dataset) (n : nat) :
  vectors_of_length data n ->
  forall k, In k (dict_keys (features data)) ->
    exists v, dict_get (features data) k = Ok v /\ length v = n.
Proof.
  intros Hlen k Hk.
  destruct (dict_get_of_key _ _ Hk) as (v & Hv & Hin).
  exists v. split; [exact Hv|].
  unfold vectors_of_length in Hlen. rewrite Forall_forall in Hlen.
  exact (Hlen (k, v) Hin).
Qed.

(** C6: for every dataset whose feature vectors all have [numSamples]
    entries, [constructDesignMatrix] returns a matrix of shape
    [(numSamples, 1 + number of features)] in which every row starts with
    a one; with no feature the result has shape [(numSamples, 1)] and
    holds only ones. *)
Theorem constructDesignMatrix_shape (data : dataset) (numSamples : nat) :
  vectors_of_length data numSamples ->
  exists m,
    constructDesignMatrix data numSamples
      = Ok (np.Mat numSamples (1 + dict_len (features data)) m) /\
    length m = numSamples /\
    Forall (intercept_row (1 + dict_len (features data))) m /\
    (dict_len (features data) = 0%nat -> m = repeat [1%float] numSamples).
Proof.
  intro Hlen. unfold constructDesignMatrix, dict_len.
  pose proof (dataset_keys_have_vectors data numSamples Hlen) as Hkeys.
  unfold dict_keys in *.
  destruct data as [[|[k v] rest] resp]; cbn [features] in *.
  - cbn [map stack_features bind length Nat.ltb Nat.leb np.T np.ones].
    pose proof (reshape_column (repeat 1%float numSamples)) as Hre.
    rewrite repeat_length, map_repeat in Hre. rewrite Hre.
    exists (repeat [1%float] numSamples).
    split; [reflexivity|]. split; [apply repeat_length|].
    split; [|reflexivity].
    apply Forall_forall. intros row Hrow.
    apply repeat_spec in Hrow. subst row. now split.
  - cbn [map fst].
    destruct (stack_features_from_ones
                (mkDataset ((k, v) :: rest) resp) numSamples k (map fst rest)
                Hkeys)
      as (vs & -> & Hvs).
    cbn [bind length Nat.ltb Nat.leb np.T].
    cbn [length] in Hvs. rewrite length_map in Hvs |- *.
    eexists. split; [reflexivity|].
    split; [now rewrite length_map, length_seq|].
    split; [|discriminate].
    replace (1 + S (length rest))%nat with (S (length vs)) by lia.
    apply transpose_intercept_rows.
Qed.

Lemma constructDesignMatrix_shape_witness :
  exists m,
    constructDesignMatrix
      (mkDataset [("X1", [2; 3; 4]%float); ("X2", [5; 6; 7]%float)]
                 [("y", [1; 0; 1]%float)]) 3
      = Ok (np.Mat 3 (1 + 2) m) /\
    length m = 3%nat /\
    Forall (intercept_row (1 + 2)) m /\
    (2%nat = 0%nat -> m = repeat [1%float] 3).
Proof.
  apply (constructDesignMatrix_shape
           (mkDataset [("X1", [2; 3; 4]%float); ("X2", [5; 6; 7]%float)]
                      [("y", [1; 0; 1]%float)]) 3).
  repeat constructor.
Defined.

(** The two shapes of the specification on concrete data. *)
Example constructDesignMatrix_scenarios :
  constructDesignMatrix (mkDataset [] []) 3
    = Ok (np.Mat 3 1 [[1]; [1]; [1]]%float) /\
  constructDesignMatrix
    (mkDataset [("X1", [2; 3; 4]%float); ("X2", [5; 6; 7]%float)] []) 3
    = Ok (np.Mat 3 3 [[1; 2; 5]; [1; 3; 6]; [1; 4; 7]]%float) /\
  constructDesignMatrix (mkDataset [("X1", [2; 3]%float)] []) 3
    = Raise (ValueError (np.vstack_mismatch_msg 3 2)).
Proof. repeat split. Qed.

(** * Further properties of the moves *)

(** ** Canonical form of set differences *)

Lemma sorted_filter (f : Z -> bool) (l : list Z) :
  StronglySorted Z.lt l -> StronglySorted Z.lt (filter f l).
Proof.
  induction 1 as [|x l Hs IH Hall]; simpl; [constructor|].
  destruct (f x); [|exact IH].
  constructor; [exact IH|].
  rewrite Forall_forall in Hall |- *.
  intros y Hy. apply filter_In in Hy as [Hy _]. now apply Hall.
Qed.

Lemma setdiff1d_sorted (a b : list Z) :
  StronglySorted Z.lt (np.setdiff1d a b).
Proof. apply sorted_filter, unique_sorted. Qed.

(** Two sorted arrays of distinct values with the same members are equal. *)
Lemma sorted_same_members (l1 l2 : list Z) :
  StronglySorted Z.lt l1 -> StronglySorted Z.lt l2 ->
  (forall x, In x l1 <-> In x l2) -> l1 = l2.
Proof.
  intro H1. revert l2.
  induction H1 as [|x l1 Hs1 IH Hall1]; intros l2 H2 Hmem.
  - destruct l2 as [|y l2]; [reflexivity|].
    exfalso. apply (Hmem y). now left.
  - destruct H2 as [|y l2 Hs2 Hall2].
    + exfalso. apply (Hmem x). now left.
    + rewrite Forall_forall in Hall1, Hall2.
      assert (x = y) as <-.
      { destruct (proj1 (Hmem x) (or_introl eq_refl)) as [Hxy|Hxl2];
          [now symmetry|].
        destruct (proj2 (Hmem y) (or_introl eq_refl)) as [Hyx|Hyl1];
          [exact Hyx|].
        specialize (Hall1 y Hyl1). specialize (Hall2 x Hxl2). lia. }
      f_equal. apply IH; [exact Hs2|].
      intro z. split; intro Hz.
      * destruct (proj1 (Hmem z) (or_intror Hz)) as [Hzx|Hzl2]; [|exact Hzl2].
        specialize (Hall1 z Hz). lia.
      * destruct (proj2 (Hmem z) (or_intror Hz)) as [Hzx|Hzl1]; [|exact Hzl1].
        specialize (Hall2 z Hz). lia.
Qed.

Lemma unique_length_le (l : list Z) : (length (np.unique l) <= length l)%nat.
Proof.
  induction l as [|x l IH]; simpl; [lia|].
  enough (length (np.insert_unique x (np.unique l))
          <= S (length (np.unique l)))%nat by lia.
  generalize (np.unique l). intro u.
  induction u as [|y u IHu]; simpl; [lia|].
  destruct (x ?= y); simpl; lia.
Qed.

Lemma insert_unique_present (x : Z) (l : list Z) :
  StronglySorted Z.lt l -> In x l -> np.insert_unique x l = l.
Proof.
  intros Hs Hin. apply sorted_same_members; [|exact Hs|].
  - now apply insert_unique_sorted.
  - intro y. rewrite insert_unique_In. intuition congruence.
Qed.

Lemma unique_length_NoDup_iff (l : list Z) :
  length (np.unique l) = length l <-> NoDup l.
Proof.
  split; [|apply unique_length_NoDup].
  induction l as [|x l IH]; intro Hlen; [constructor|].
  simpl in Hlen. pose proof (unique_length_le l) as Hle.
  destruct (in_dec Z.eq_dec x l) as [Hin|Hnin].
  - rewrite insert_unique_present in Hlen;
      [lia|apply unique_sorted|now apply unique_In].
  - rewrite insert_unique_length_new in Hlen by now rewrite unique_In.
    constructor; [exact Hnin|]. apply IH. lia.
Qed.

(** A member of an array is handed out by some draw. *)
Lemma random_choice_reaches (a : list Z) (x : Z) :
  In x a -> exists r, np.random_choice a r = Ok x.
Proof.
  intro Hin. destruct (In_nth a x 0 Hin) as (n & Hn & Hnth).
  exists n. destruct a as [|y a]; [destruct Hin|].
  unfold np.random_choice. now rewrite Nat.mod_small, Hnth.
Qed.

Lemma deleteMove_Ok_inv (fs : list Z) (nf fir r : nat) (res : list Z) :
  deleteMove fs nf fir r = Ok res ->
  (2 <= length fs)%nat /\
  exists e, np.random_choice fs r = Ok e /\ In e fs /\
            res = np.setdiff1d fs [e].
Proof.
  unfold deleteMove.
  destruct (Nat.ltb_spec (length fs) 2); [discriminate|].
  destruct (np.random_choice fs r) as [e|err] eqn:He; [|discriminate].
  cbn [bind]. intros [= <-]. split; [lia|].
  exists e. repeat split. eapply random_choice_Ok_In, He.
Qed.

Lemma deleteMove_long_enough (fs : list Z) (nf fir r : nat) :
  (2 <= length fs)%nat ->
  exists e, np.random_choice fs r = Ok e /\ In e fs /\
            deleteMove fs nf fir r = Ok (np.setdiff1d fs [e]).
Proof.
  intro Hlen. unfold deleteMove.
  destruct (Nat.ltb_spec (length fs) 2); [lia|].
  destruct (random_choice_positive_length fs r) as (e & He & Hin); [lia|].
  exists e. rewrite He. now repeat split.
Qed.

(** ** The exchange move and cardinality *)

Lemma unique_length_append_fresh (l : list Z) (a : Z) :
  NoDup l -> ~ In a l ->
  NoDup (l ++ [a]) /\ length (np.unique (l ++ [a])) = S (length l).
Proof.
  intros Hnd Hnin.
  assert (NoDup (l ++ [a])) as Hnd'.
  { apply NoDup_app; [exact Hnd|repeat constructor; simpl; tauto|].
    intros y Hy [<-|[]]. contradiction. }
  split; [exact Hnd'|].
  rewrite unique_length_NoDup by exact Hnd'.
  rewrite length_app. simpl. lia.
Qed.

Lemma unique_length_append_member (l : list Z) (a : Z) :
  NoDup l -> In a l ->
  ~ NoDup (l ++ [a]) /\ length (np.unique (l ++ [a])) = length l.
Proof.
  intros Hnd Hin. split.
  - intro Hnd'. apply NoDup_remove_2 in Hnd'.
    rewrite app_nil_r in Hnd'. contradiction.
  - rewrite <- (unique_length_NoDup l Hnd). f_equal.
    apply sorted_same_members; try apply unique_sorted.
    intro x. rewrite !unique_In, in_app_iff. simpl.
    intuition congruence.
Qed.

(** C2, as the code has it: for every feature set of distinct ids of
    [1, numFeatures] with at least one element, when [numFeatures] is at
    least 2, [exchangeMove] succeeds for every pair of draws and returns
    the remaining ids followed by the added one, as many entries as the
    feature set has.  When the added id is not among the remaining ones
    the result is a set of exactly [|featureSet|] elements; when it is,
    the result holds that id twice and has only [|featureSet| - 1]
    distinct elements. *)
Theorem exchangeMove_cardinality
  (featureSet : list Z) (numFeatures fanInRestriction r1 r2 : nat) :
  NoDup featureSet ->
  Forall (in_range numFeatures) featureSet ->
  (1 <= length featureSet)%nat ->
  (2 <= numFeatures)%nat ->
  exists elToExchange elToAdd res,
    np.random_choice featureSet r1 = Ok elToExchange /\
    exchangeMove featureSet numFeatures fanInRestriction r1 r2 = Ok res /\
    res = np.append (np.setdiff1d featureSet [elToExchange]) elToAdd /\
    length res = length featureSet /\
    (~ In elToAdd (np.setdiff1d featureSet [elToExchange]) ->
     NoDup res /\ length (np.unique res) = length featureSet) /\
    (In elToAdd (np.setdiff1d featureSet [elToExchange]) ->
     ~ NoDup res /\ S (length (np.unique res)) = length featureSet).
Proof.
  intros Hnd _ Hlen Hnf. unfold exchangeMove.
  destruct (Nat.ltb_spec (length featureSet) 1); [lia|].
  destruct (random_choice_positive_length featureSet r1) as (e & He & Hin);
    [lia|].
  rewrite He. cbn [bind].
  destruct (random_choice_nonempty
              (np.setdiff1d (np.add (np.arange numFeatures) 1) [e]) r2)
    as (a & -> & _).
  { apply setdiff1d_nonempty; [apply add_arange_NoDup|].
    rewrite add_arange_length. simpl. lia. }
  cbn [bind].
  pose proof (setdiff1d_single_length featureSet e Hnd Hin) as Hcard.
  pose proof (setdiff1d_NoDup featureSet [e]) as Hrest.
  exists e, a, (np.append (np.setdiff1d featureSet [e]) a).
  unfold np.append.
  split; [reflexivity|]. split; [reflexivity|]. split; [reflexivity|].
  split; [rewrite length_app; simpl; lia|].
  split.
  - intro Hfresh.
    destruct (unique_length_append_fresh _ a Hrest Hfresh) as [Hnd' Hcount].
    split; [exact Hnd'|lia].
  - intro Hmember.
    destruct (unique_length_append_member _ a Hrest Hmember)
      as [Hdup Hcount].
    split; [exact Hdup|lia].
Qed.

Lemma exchangeMove_cardinality_witness :
  exists elToExchange elToAdd res,
    np.random_choice [2; 4; 6] 1 = Ok elToExchange /\
    exchangeMove [2; 4; 6] 6 3 1 3 = Ok res /\
    res = np.append (np.setdiff1d [2; 4; 6] [elToExchange]) elToAdd /\
    length res = length [2; 4; 6] /\
    (~ In elToAdd (np.setdiff1d [2; 4; 6] [elToExchange]) ->
     NoDup res /\ length (np.unique res) = length [2; 4; 6]) /\
    (In elToAdd (np.setdiff1d [2; 4; 6] [elToExchange]) ->
     ~ NoDup res /\ S (length (np.unique res)) = length [2; 4; 6]).
Proof.
  apply (exchangeMove_cardinality [2; 4; 6] 6 3 1 3).
  - repeat constructor; simpl; intuition lia.
  - repeat constructor; unfold in_range; simpl; lia.
  - simpl; lia.
  - lia.
Defined.

(** C2, as stated, does not hold, on two counts.  With a single feature
    overall, the feature set [{1}] is valid and non-empty, yet the pool
    left after removing 1 is empty and [exchangeMove] raises instead of
    returning.  And on [{2, 4, 6}] with six features, removing 2 and
    drawing 4, which is still in the set, returns [4, 6, 4]: not a set of
    three elements, it has two distinct ids. *)
Lemma exchangeMove_cardinality_counterexample :
  (NoDup [1] /\
   Forall (in_range 1) [1] /\
   (1 <= length [1])%nat /\
   exchangeMove [1] 1 1 0 0 = Raise (ValueError np.choice_empty_msg) /\
   ~ (exists res, exchangeMove [1] 1 1 0 0 = Ok res)) /\
  (NoDup [2; 4; 6] /\
   Forall (in_range 6) [2; 4; 6] /\
   (1 <= length [2; 4; 6])%nat /\
   exchangeMove [2; 4; 6] 6 3 0 2 = Ok [4; 6; 4] /\
   ~ NoDup [4; 6; 4] /\
   length (np.unique [4; 6; 4]) = 2%nat).
Proof.
  split.
  - split; [repeat constructor; simpl; tauto|].
    split; [repeat constructor; unfold in_range; simpl; lia|].
    split; [simpl; lia|].
    split; [reflexivity|].
    intros (res & Hres). discriminate Hres.
  - split; [repeat constructor; simpl; intuition lia|].
    split; [repeat constructor; unfold in_range; simpl; lia|].
    split; [simpl; lia|].
    split; [reflexivity|].
    split; [|reflexivity].
    intro Hnd. inversion Hnd as [|? ? Hnin _]; subst.
    apply Hnin. simpl. tauto.
Qed.

(** ** Invariants of the moves *)

(** X1: on a valid feature set of at least two ids, [deleteMove] returns a
    valid feature set, and returns it in ascending order. *)
Theorem deleteMove_keeps_valid
  (featureSet : list Z) (numFeatures fanInRestriction r : nat) :
  valid_feature_set numFeatures fanInRestriction featureSet ->
  (2 <= length featureSet)%nat ->
  exists res,
    deleteMove featureSet numFeatures fanInRestriction r = Ok res /\
    valid_feature_set numFeatures fanInRestriction res /\
    StronglySorted Z.lt res.
Proof.
  intros (Hnd & Hrange & Hsize) Hlen.
  destruct (deleteMove_long_enough featureSet numFeatures fanInRestriction r
              Hlen) as (e & _ & Hin & ->).
  eexists. split; [reflexivity|].
  pose proof (setdiff1d_single_length featureSet e Hnd Hin) as Hcard.
  split; [|apply setdiff1d_sorted].
  split; [apply setdiff1d_NoDup|].
  split; [|lia].
  rewrite Forall_forall in Hrange |- *.
  intros x Hx. apply setdiff1d_In in Hx as [Hx _]. now apply Hrange.
Qed.

Lemma deleteMove_keeps_valid_witness :
  exists res,
    deleteMove [6; 2; 4] 6 3 1 = Ok res /\
    valid_feature_set 6 3 res /\
    StronglySorted Z.lt res.
Proof.
  apply (deleteMove_keeps_valid [6; 2; 4] 6 3 1).
  - split; [repeat constructor; simpl; intuition lia|].
    split; [repeat constructor; unfold in_range; simpl; lia|simpl; lia].
  - simpl; lia.
Defined.

(** X2: whenever [addMove] returns on distinct ids of [1, numFeatures], the
    result is a valid feature set: still distinct, still in range, and of
    at most [fanInRestriction] ids. *)
Theorem addMove_keeps_valid
  (featureSet : list Z) (numFeatures fanInRestriction r : nat)
  (res : list Z) :
  NoDup featureSet ->
  Forall (in_range numFeatures) featureSet ->
  addMove featureSet numFeatures fanInRestriction r = Ok res ->
  valid_feature_set numFeatures fanInRestriction res.
Proof.
  intros Hnd Hrange Hres.
  apply addMove_Ok_inv in Hres as (Hfan & x & Hx & ->).
  apply random_choice_Ok_In, setdiff1d_In in Hx as [Hall Hnew].
  apply add_arange_In in Hall. unfold np.append.
  split.
  { apply NoDup_app; [exact Hnd|repeat constructor; simpl; tauto|].
    intros y Hy [<-|[]]. contradiction. }
  split.
  - apply Forall_app. split; [exact Hrange|]. now repeat constructor.
  - rewrite length_app. simpl. lia.
Qed.

Lemma addMove_keeps_valid_witness : valid_feature_set 6 4 [2; 4; 6; 3].
Proof.
  apply (addMove_keeps_valid [2; 4; 6] 6 4 1 [2; 4; 6; 3]).
  - repeat constructor; simpl; intuition lia.
  - repeat constructor; unfold in_range; simpl; lia.
  - reflexivity.
Defined.

(** X3: whenever [exchangeMove] returns on a valid feature set, every id of
    the result is in [1, numFeatures]; the result is a valid feature set
    exactly when the added id, its last entry, was not already in the
    feature set. *)
Theorem exchangeMove_valid_iff_fresh
  (featureSet : list Z) (numFeatures fanInRestriction r1 r2 : nat)
  (res : list Z) :
  valid_feature_set numFeatures fanInRestriction featureSet ->
  exchangeMove featureSet numFeatures fanInRestriction r1 r2 = Ok res ->
  Forall (in_range numFeatures) res /\
  (valid_feature_set numFeatures fanInRestriction res <->
   ~ In (last res 0) featureSet).
Proof.
  intros (Hnd & Hrange & Hsize) Hres.
  apply exchangeMove_Ok_inv in Hres as (e & a & He & Ha & ->).
  apply random_choice_Ok_In in He.
  apply random_choice_Ok_In, setdiff1d_In in Ha as [Hall Hne].
  apply add_arange_In in Hall.
  assert (a <> e) as Hae by (intros ->; apply Hne; now left).
  pose proof (setdiff1d_single_length featureSet e Hnd He) as Hcard.
  unfold np.append. rewrite last_last.
  assert (Forall (in_range numFeatures) (np.setdiff1d featureSet [e] ++ [a]))
    as Hres_range.
  { apply Forall_app. split; [|now repeat constructor].
    rewrite Forall_forall in Hrange |- *.
    intros x Hx. apply setdiff1d_In in Hx as [Hx _]. now apply Hrange. }
  split; [exact Hres_range|].
  split.
  - intros (Hnd' & _ & _) Hin.
    apply NoDup_remove_2 in Hnd'. rewrite app_nil_r in Hnd'.
    apply Hnd', setdiff1d_In. split; [exact Hin|].
    simpl. intuition congruence.
  - intro Hfresh. split; [|split; [exact Hres_range|]].
    + apply NoDup_app; [apply setdiff1d_NoDup|repeat constructor; simpl; tauto|].
      intros y Hy [<-|[]]. apply setdiff1d_In in Hy as [Hy _]. contradiction.
    + rewrite length_app. simpl. lia.
Qed.

Lemma exchangeMove_valid_iff_fresh_witness :
  Forall (in_range 6) [4; 6; 4] /\
  (valid_feature_set 6 3 [4; 6; 4] <-> ~ In (last [4; 6; 4] 0) [2; 4; 6]).
Proof.
  apply (exchangeMove_valid_iff_fresh [2; 4; 6] 6 3 0 2 [4; 6; 4]).
  - split; [repeat constructor; simpl; intuition lia|].
    split; [repeat constructor; unfold in_range; simpl; lia|simpl; lia].
  - reflexivity.
Defined.

(** X4: on a valid feature set of at least two ids, whatever element the
    first draw removes, some second draw makes [exchangeMove] return an
    array that holds an id twice. *)
Theorem exchangeMove_can_repeat
  (featureSet : list Z) (numFeatures fanInRestriction r1 : nat) :
  valid_feature_set numFeatures fanInRestriction featureSet ->
  (2 <= length featureSet)%nat ->
  exists r2 res,
    exchangeMove featureSet numFeatures fanInRestriction r1 r2 = Ok res /\
    length res = length featureSet /\
    ~ NoDup res.
Proof.
  intros (Hnd & Hrange & Hsize) Hlen. unfold exchangeMove.
  destruct (Nat.ltb_spec (length featureSet) 1); [lia|].
  destruct (random_choice_positive_length featureSet r1) as (e & -> & He);
    [lia|].
  cbn [bind].
  pose proof (setdiff1d_single_length featureSet e Hnd He) as Hcard.
  destruct (np.setdiff1d featureSet [e]) as [|y rest] eqn:Hrest;
    [simpl in Hcard; lia|].
  assert (In y (np.setdiff1d featureSet [e])) as Hy
    by (rewrite Hrest; now left).
  apply setdiff1d_In in Hy as [Hyfs Hye].
  destruct (random_choice_reaches
              (np.setdiff1d (np.add (np.arange numFeatures) 1) [e]) y)
    as (r2 & Hr2).
  { apply setdiff1d_In. split; [|exact Hye].
    apply add_arange_In. rewrite Forall_forall in Hrange. now apply Hrange. }
  exists r2. rewrite Hr2. cbn [bind]. eexists. split; [reflexivity|].
  unfold np.append. split; [rewrite length_app; simpl in *; lia|].
  intro Hdup. simpl in Hdup. inversion Hdup as [|? ? Hnin _]; subst.
  apply Hnin, in_app_iff. right. now left.
Qed.

Lemma exchangeMove_can_repeat_witness :
  exists r2 res,
    exchangeMove [2; 4; 6] 6 3 0 r2 = Ok res /\
    length res = length [2; 4; 6] /\
    ~ NoDup res.
Proof.
  apply (exchangeMove_can_repeat [2; 4; 6] 6 3 0).
  - split; [repeat constructor; simpl; intuition lia|].
    split; [repeat constructor; unfold in_range; simpl; lia|simpl; lia].
  - simpl; lia.
Defined.

(** ** Moves undoing one another *)

(** X5: a delete move can undo an add move.  When [addMove] returns on a
    non-empty feature set, [deleteMove] on the result, with the draw that
    picks the last entry, returns the ids of the feature set in ascending
    order. *)
Theorem deleteMove_undoes_addMove
  (featureSet : list Z) (numFeatures fanInRestriction r : nat)
  (res : list Z) :
  (1 <= length featureSet)%nat ->
  addMove featureSet numFeatures fanInRestriction r = Ok res ->
  deleteMove res numFeatures fanInRestriction (length featureSet)
    = Ok (np.unique featureSet).
Proof.
  intros Hlen Hres.
  apply addMove_Ok_inv in Hres as (_ & x & Hx & ->).
  apply random_choice_Ok_In, setdiff1d_In in Hx as [_ Hnew].
  unfold deleteMove, np.append. rewrite length_app. simpl length.
  destruct (Nat.ltb_spec (length featureSet + 1) 2); [lia|].
  assert (np.random_choice (featureSet ++ [x]) (length featureSet) = Ok x)
    as ->.
  { destruct (featureSet ++ [x]) as [|y l] eqn:E;
      [now destruct featureSet|].
    unfold np.random_choice. rewrite <- E, length_app. simpl length.
    rewrite Nat.mod_small by lia.
    now rewrite app_nth2, Nat.sub_diag by lia. }
  cbn [bind]. f_equal.
  apply sorted_same_members;
    [apply setdiff1d_sorted|apply unique_sorted|].
  intro y. rewrite setdiff1d_In, unique_In, in_app_iff. simpl.
  split; [|intro Hy; split; [now left|]; intros [->|[]]; contradiction].
  intros [[Hy|[<-|[]]] Hne]; [exact Hy|]. exfalso. apply Hne. now left.
Qed.

Lemma deleteMove_undoes_addMove_witness :
  deleteMove [2; 4; 6; 3] 6 4 (length [2; 4; 6]) = Ok (np.unique [2; 4; 6]).
Proof.
  apply (deleteMove_undoes_addMove [2; 4; 6] 6 4 1 [2; 4; 6; 3]).
  - simpl; lia.
  - reflexivity.
Defined.

(** X6: an add move can undo a delete move.  When [deleteMove] returns on
    a valid feature set, some draw makes [addMove] on the result put the
    deleted id back: the outcome is the deleted result followed by that id,
    and has the members of the feature set. *)
Theorem addMove_undoes_deleteMove
  (featureSet : list Z) (numFeatures fanInRestriction r : nat)
  (res : list Z) :
  valid_feature_set numFeatures fanInRestriction featureSet ->
  deleteMove featureSet numFeatures fanInRestriction r = Ok res ->
  exists r' elToDel,
    np.random_choice featureSet r = Ok elToDel /\
    addMove res numFeatures fanInRestriction r'
      = Ok (np.append res elToDel) /\
    (forall x, In x (np.append res elToDel) <-> In x featureSet).
Proof.
  intros (Hnd & Hrange & Hsize) Hres.
  apply deleteMove_Ok_inv in Hres as (Hlen & e & He & Hin & ->).
  pose proof (setdiff1d_single_length featureSet e Hnd Hin) as Hcard.
  destruct (random_choice_reaches
              (np.setdiff1d (np.add (np.arange numFeatures) 1)
                 (np.setdiff1d featureSet [e])) e) as (r' & Hr').
  { apply setdiff1d_In. split.
    - apply add_arange_In. rewrite Forall_forall in Hrange. now apply Hrange.
    - rewrite setdiff1d_In. simpl. tauto. }
  exists r', e. split; [exact He|]. split.
  - rewrite addMove_in_bound by lia. now rewrite Hr'.
  - intro x. unfold np.append. rewrite in_app_iff, setdiff1d_In. simpl.
    destruct (Z.eq_dec x e) as [->|Hne]; [tauto|].
    intuition congruence.
Qed.

Lemma addMove_undoes_deleteMove_witness :
  exists r' elToDel,
    np.random_choice [6; 2; 4] 0 = Ok elToDel /\
    addMove [2; 4] 6 3 r' = Ok (np.append [2; 4] elToDel) /\
    (forall x, In x (np.append [2; 4] elToDel) <-> In x [6; 2; 4]).
Proof.
  apply (addMove_undoes_deleteMove [6; 2; 4] 6 3 0 [2; 4]).
  - split; [repeat constructor; simpl; intuition lia|].
    split; [repeat constructor; unfold in_range; simpl; lia|simpl; lia].
  - reflexivity.
Defined.

(** ** Arrays with repeated ids *)

(** X7: on any array of at least two entries, repeated or not,
    [deleteMove] returns the distinct values other than the drawn one, in
    ascending order: every copy of the drawn value goes, so the result has
    one element less than there are distinct values, and it is empty
    exactly when all entries were equal. *)
Theorem deleteMove_drops_every_copy
  (featureSet : list Z) (numFeatures fanInRestriction r : nat) :
  (2 <= length featureSet)%nat ->
  exists elToDel res,
    np.random_choice featureSet r = Ok elToDel /\
    deleteMove featureSet numFeatures fanInRestriction r = Ok res /\
    StronglySorted Z.lt res /\
    (forall x, In x res <-> In x featureSet /\ x <> elToDel) /\
    S (length res) = length (np.unique featureSet) /\
    (res = [] <-> forall x, In x featureSet -> x = elToDel).
Proof.
  intro Hlen.
  destruct (deleteMove_long_enough featureSet numFeatures fanInRestriction r
              Hlen) as (e & He & Hin & Hdel).
  exists e, (np.setdiff1d featureSet [e]).
  split; [exact He|]. split; [exact Hdel|].
  split; [apply setdiff1d_sorted|].
  assert (Hmem : forall x,
             In x (np.setdiff1d featureSet [e]) <-> In x featureSet /\ x <> e).
  { intro x. rewrite setdiff1d_In. simpl. intuition congruence. }
  split; [exact Hmem|]. split.
  - pose proof (setdiff1d_single_length (np.unique featureSet) e
                  (unique_NoDup featureSet)
                  (proj2 (unique_In e featureSet) Hin)) as Hcard.
    rewrite <- Hcard. f_equal. f_equal.
    apply sorted_same_members; try apply setdiff1d_sorted.
    intro x. rewrite !setdiff1d_In, unique_In. tauto.
  - split.
    + intros Hnil x Hx. destruct (Z.eq_dec x e) as [->|Hne]; [reflexivity|].
      exfalso. assert (In x (np.setdiff1d featureSet [e])) as Hx'
        by (apply Hmem; now split).
      rewrite Hnil in Hx'. destruct Hx'.
    + intro Hall. destruct (np.setdiff1d featureSet [e]) as [|y l];
        [reflexivity|].
      exfalso. destruct (proj1 (Hmem y) (or_introl eq_refl)) as [Hy Hne].
      apply Hne, Hall, Hy.
Qed.

Lemma deleteMove_drops_every_copy_witness :
  exists elToDel res,
    np.random_choice [4; 6; 4] 0 = Ok elToDel /\
    deleteMove [4; 6; 4] 6 3 0 = Ok res /\
    StronglySorted Z.lt res /\
    (forall x, In x res <-> In x [4; 6; 4] /\ x <> elToDel) /\
    S (length res) = length (np.unique [4; 6; 4]) /\
    (res = [] <-> forall x, In x [4; 6; 4] -> x = elToDel).
Proof.
  apply (deleteMove_drops_every_copy [4; 6; 4] 6 3 0). simpl; lia.
Defined.

(** ** The initial feature set under the moves *)

Lemma generateInitialFeatureSet_Ok_inv
  (nf fir : nat) (draws : list nat) (fs : list Z) :
  generateInitialFeatureSet nf fir draws = Ok fs ->
  (fir <= nf)%nat /\ length fs = fir /\ NoDup fs /\ Forall (in_range nf) fs.
Proof.
  unfold generateInitialFeatureSet, np.random_choice_no_replace.
  destruct ((nf =? 0) && negb (fir =? 0))%nat; [discriminate|].
  destruct (Nat.ltb_spec nf fir) as [Hlt|Hle]; [discriminate|].
  cbn [bind]. intros [= <-].
  destruct (sample_without_replacement_spec fir (np.arange nf) draws)
    as (Hlen & Hnd & Hincl).
  { apply arange_NoDup. }
  { unfold np.arange. now rewrite length_map, length_seq. }
  split; [exact Hle|]. unfold np.add.
  split; [now rewrite length_map|].
  split.
  - apply Finite.Injective_map_NoDup; [|exact Hnd]. intros i j Hij. lia.
  - apply Forall_forall. intros y Hy.
    apply in_map_iff in Hy as (x & <- & Hx).
    apply Hincl, arange_In in Hx. unfold in_range. lia.
Qed.

(** X8: the set [generateInitialFeatureSet] returns sits at the fan-in
    ceiling.  With the same [numFeatures] and [fanInRestriction], [addMove]
    on it raises its constraint violation for every draw; when it has at
    least two ids [deleteMove] returns a valid feature set; and when
    [numFeatures] is at least 2 and the set is not empty [exchangeMove]
    returns. *)
Theorem initial_feature_set_at_ceiling
  (numFeatures fanInRestriction : nat) (draws : list nat)
  (featureSet : list Z) (r1 r2 : nat) :
  generateInitialFeatureSet numFeatures fanInRestriction draws
    = Ok featureSet ->
  addMove featureSet numFeatures fanInRestriction r1
    = Raise (ValueError addMove_msg) /\
  ((2 <= fanInRestriction)%nat ->
   exists res,
     deleteMove featureSet numFeatures fanInRestriction r1 = Ok res /\
     valid_feature_set numFeatures fanInRestriction res) /\
  ((1 <= fanInRestriction)%nat -> (2 <= numFeatures)%nat ->
   exists res,
     exchangeMove featureSet numFeatures fanInRestriction r1 r2 = Ok res).
Proof.
  intro Hinit.
  apply generateInitialFeatureSet_Ok_inv in Hinit as (Hle & Hlen & Hnd & Hrange).
  split; [|split].
  - unfold addMove.
    destruct (Z.ltb_spec (Z.of_nat fanInRestriction - 1)
                (Z.of_nat (length featureSet))); [reflexivity|lia].
  - intro Hfan.
    destruct (deleteMove_long_enough featureSet numFeatures fanInRestriction
                r1) as (e & _ & Hin & ->); [lia|].
    eexists. split; [reflexivity|].
    pose proof (setdiff1d_single_length featureSet e Hnd Hin) as Hcard.
    split; [apply setdiff1d_NoDup|]. split; [|lia].
    rewrite Forall_forall in Hrange |- *.
    intros x Hx. apply setdiff1d_In in Hx as [Hx _]. now apply Hrange.
  - intros Hfan Hnf. unfold exchangeMove.
    destruct (Nat.ltb_spec (length featureSet) 1); [lia|].
    destruct (random_choice_positive_length featureSet r1) as (e & -> & _);
      [lia|].
    cbn [bind].
    destruct (random_choice_nonempty
                (np.setdiff1d (np.add (np.arange numFeatures) 1) [e]) r2)
      as (a & -> & _).
    { apply setdiff1d_nonempty; [apply add_arange_NoDup|].
      rewrite add_arange_length. simpl. lia. }
    cbn [bind]. now eexists.
Qed.

Lemma initial_feature_set_at_ceiling_witness :
  addMove [6; 1; 3] 6 3 0 = Raise (ValueError addMove_msg) /\
  ((2 <= 3)%nat ->
   exists res,
     deleteMove [6; 1; 3] 6 3 0 = Ok res /\ valid_feature_set 6 3 res) /\
  ((1 <= 3)%nat -> (2 <= 6)%nat ->
   exists res, exchangeMove [6; 1; 3] 6 3 0 1 = Ok res).
Proof.
  apply (initial_feature_set_at_ceiling 6 3 [5; 5; 5]%nat [6; 1; 3] 0 1).
  reflexivity.
Defined.

(** * Further properties of the data operations *)

(** ** Keys *)

Lemma to_int_not_nil (z : Z) :
  Z.to_int z <> Decimal.Pos Decimal.Nil /\
  Z.to_int z <> Decimal.Neg Decimal.Nil.
Proof.
  destruct z as [|p|p]; simpl; split; try discriminate;
    intros [= H]; now apply DecimalPos.Unsigned.to_uint_nonnil in H.
Qed.

Lemma str_inj (a b : Z) : str a = str b -> a = b.
Proof.
  unfold str. intro H. apply DecimalZ.to_int_inj.
  destruct (to_int_not_nil a) as [Ha1 Ha2], (to_int_not_nil b) as [Hb1 Hb2].
  pose proof (DecimalString.NilZero.isi _ Ha1 Ha2) as Ea.
  pose proof (DecimalString.NilZero.isi _ Hb1 Hb2) as Eb.
  rewrite H in Ea. congruence.
Qed.

Lemma feature_key_inj (a b : Z) : feature_key a = feature_key b -> a = b.
Proof.
  unfold feature_key. cbn [String.append]. intros [= H]. now apply str_inj.
Qed.

Lemma dict_set_new_key {V : Type} (d : dict V) (k : String.string) (v : V) :
  ~ In k (dict_keys d) -> dict_set d k v = d ++ [(k, v)].
Proof.
  induction d as [|[k' v'] d IH]; simpl; intro Hnin; [reflexivity|].
  destruct (String.eqb_spec k' k) as [->|Hne]; [tauto|].
  rewrite IH; [reflexivity|tauto].
Qed.

Lemma dict_get_entry {V : Type} (d : dict V) (k : String.string) (v : V) :
  NoDup (dict_keys d) -> In (k, v) d -> dict_get d k = Ok v.
Proof.
  induction d as [|[k' v'] d IH]; simpl; intros Hnd Hin; [destruct Hin|].
  inversion Hnd as [|? ? Hnin Hnd']; subst.
  destruct (String.eqb_spec k' k) as [->|Hne].
  - destruct Hin as [[= ->]|Hin]; [reflexivity|].
    exfalso. apply Hnin. unfold dict_keys. apply in_map_iff. now exists (k, v).
  - destruct Hin as [[= Hk _]|Hin]; [contradiction|]. now apply IH.
Qed.

(** ** Order and first failure of the selection *)

Lemma selectData_loop_order
  (data : dataset) (featureSet : list Z) (partialData : dataset) :
  NoDup featureSet ->
  Forall (has_key data) featureSet ->
  (forall i, In i featureSet ->
     ~ In (feature_key i) (dict_keys (features partialData))) ->
  exists cols,
    selectData_loop data featureSet partialData
      = Ok (mkDataset (features partialData ++ cols) (response partialData)) /\
    Forall2 (fun i kv =>
               fst kv = feature_key i /\
               dict_get (features data) (feature_key i) = Ok (snd kv))
            featureSet cols.
Proof.
  intros Hnd Hall. revert partialData.
  induction Hall as [|i fs Hi Hall IH]; intros pd Hfresh;
    cbn [selectData_loop].
  - exists []. rewrite app_nil_r. split; [now destruct pd|constructor].
  - inversion Hnd as [|? ? Hnin Hnd']; subst.
    destruct (dict_get_of_key _ _ Hi) as (v & Hv & _).
    rewrite Hv. cbn [bind].
    rewrite dict_set_new_key by (apply Hfresh; now left).
    destruct (IH Hnd' (mkDataset (features pd ++ [(feature_key i, v)])
                                 (response pd))) as (cols & Hcols & Hrel).
    { intros j Hj. cbn [features]. unfold dict_keys.
      rewrite map_app, in_app_iff. intros [Hin|[Heq|[]]].
      - apply (Hfresh j); [now right|exact Hin].
      - apply feature_key_inj in Heq. congruence. }
    exists ((feature_key i, v) :: cols). rewrite Hcols. cbn [features response].
    rewrite <- app_assoc. split; [reflexivity|].
    constructor; [now split|exact Hrel].
Qed.

(** X9: on distinct ids that all have a key, [selectData] returns the
    features in the order of the feature set: entry [j] of the result has
    the key of id [j] and the value the data has under that key. *)
Theorem selectData_keeps_order (data : dataset) (featureSet : list Z) :
  NoDup featureSet ->
  (forall i, In i featureSet -> has_key data i) ->
  exists selected,
    selectData data featureSet = Ok selected /\
    dict_keys (features selected) = map feature_key featureSet /\
    Forall2 (fun i kv =>
               dict_get (features data) (feature_key i) = Ok (snd kv))
            featureSet (features selected).
Proof.
  intros Hnd Hall.
  destruct (selectData_loop_order data featureSet (mkDataset [] []) Hnd)
    as (cols & Hsel & Hrel).
  { now apply Forall_forall. }
  { intros i _ []. }
  exists (mkDataset cols []). split; [exact Hsel|]. cbn [features].
  clear Hsel. induction Hrel as [|i kv fs cols [Hk Hv] Hrel IH].
  - split; [reflexivity|constructor].
  - inversion Hnd; subst.
    destruct IH as [IHk IHv]; [assumption|intros; apply Hall; now right|].
    split; [simpl; now rewrite Hk, <- IHk|now constructor].
Qed.

Lemma selectData_keeps_order_witness :
  exists selected,
    selectData
      (mkDataset [("X1", [2; 3]%float); ("X2", [5; 6]%float);
                  ("X3", [8; 9]%float)] [])
      [3; 1] = Ok selected /\
    dict_keys (features selected) = map feature_key [3; 1] /\
    Forall2 (fun i kv =>
               dict_get [("X1", [2; 3]%float); ("X2", [5; 6]%float);
                         ("X3", [8; 9]%float)] (feature_key i)
               = Ok (snd kv))
            [3; 1] (features selected).
Proof.
  apply (selectData_keeps_order
           (mkDataset [("X1", [2; 3]%float); ("X2", [5; 6]%float);
                       ("X3", [8; 9]%float)] [])
           [3; 1]).
  - repeat constructor; simpl; intuition lia.
  - intros i [<-|[<-|[]]]; unfold has_key; simpl; tauto.
Defined.

(** X10: [selectData] stops at the first id without a key: when the ids
    before it all have one, the [KeyError] raised names the key of that
    id, whatever comes after it. *)
Theorem selectData_reports_first_missing
  (data : dataset) (before after : list Z) (i : Z) :
  (forall j, In j before -> has_key data j) ->
  ~ has_key data i ->
  selectData data (before ++ i :: after) = Raise (KeyError (feature_key i)).
Proof.
  intros Hbefore Hmiss. unfold selectData.
  generalize (mkDataset [] []).
  induction before as [|j before IH]; intro pd; cbn [app selectData_loop].
  - now rewrite (dict_get_missing _ _ Hmiss).
  - destruct (dict_get_of_key _ _ (Hbefore j (or_introl eq_refl)))
      as (v & Hv & _).
    rewrite Hv. cbn [bind]. apply IH.
    intros j' Hj'. apply Hbefore. now right.
Qed.

Lemma selectData_reports_first_missing_witness :
  selectData (mkDataset [("X1", [2; 3]%float)] []) ([1] ++ 4 :: [7; 1])
    = Raise (KeyError (feature_key 4)).
Proof.
  apply (selectData_reports_first_missing
           (mkDataset [("X1", [2; 3]%float)] []) [1] [7; 1] 4).
  - intros j [<-|[]]; unfold has_key; simpl; tauto.
  - unfold has_key; simpl. intros [H|[]]. discriminate H.
Defined.

(** ** Content and failure of the design matrix *)

Lemma stack_features_values
  (data : dataset) (n : nat) (l : dict (list float))
  (r : nat) (m : list (list float)) :
  NoDup (dict_keys (features data)) ->
  incl l (features data) ->
  stack_features data (dict_keys l) (np.Mat r n m) =
  if all_of_length n l
  then Ok (np.Mat (r + length l) n (m ++ map snd l))
  else Raise (ValueError (np.vstack_mismatch_msg n (first_bad_length n l))).
Proof.
  intros Hnd. revert r m.
  induction l as [|[k v] l IH]; intros r m Hincl;
    unfold first_bad_length;
    cbn [dict_keys map fst stack_features all_of_length forallb snd find].
  - now rewrite Nat.add_0_r, app_nil_r.
  - rewrite (dict_get_entry _ k v Hnd) by (apply Hincl; now left).
    cbn [bind]. unfold np.vstack. cbn [np.atleast_2d].
    rewrite (Nat.eqb_sym n (length v)).
    destruct (length v =? n)%nat; cbn [bind andb negb snd]; [|reflexivity].
    fold (dict_keys l). rewrite IH by (intros x Hx; apply Hincl; now right).
    fold (all_of_length n l). fold (first_bad_length n l).
    destruct (all_of_length n l); [|reflexivity].
    simpl length. rewrite <- app_assoc. do 2 f_equal. lia.
Qed.

Lemma repeat_as_map {A : Type} (x : A) (n a : nat) :
  repeat x n = map (fun _ => x) (seq a n).
Proof.
  revert a. induction n as [|n IH]; intro a; simpl; [reflexivity|].
  now rewrite <- IH.
Qed.

(** What [constructDesignMatrix] computes on a dictionary of distinct
    keys. *)
Lemma constructDesignMatrix_value (data : dataset) (n : nat) :
  NoDup (dict_keys (features data)) ->
  constructDesignMatrix data n =
  if all_of_length n (features data)
  then Ok (np.Mat n (1 + dict_len (features data))
             (design_rows n (features data)))
  else Raise (ValueError
                (np.vstack_mismatch_msg n
                   (first_bad_length n (features data)))).
Proof.
  intro Hnd.
  unfold constructDesignMatrix, dict_len, design_rows, first_bad_length.
  destruct data as [[|[k v] rest] resp]; cbn [features] in *.
  - cbn [dict_keys map stack_features bind length Nat.ltb Nat.leb np.T
         np.ones all_of_length forallb].
    pose proof (reshape_column (repeat 1%float n)) as Hre.
    rewrite repeat_length, map_repeat in Hre. rewrite Hre.
    do 2 f_equal. apply repeat_as_map.
  - cbn [dict_keys map fst stack_features all_of_length forallb snd find].
    assert (dict_get ((k, v) :: rest) k = Ok v) as Hk
      by (cbn [dict_get]; now rewrite String.eqb_refl).
    cbn [features]. rewrite Hk. cbn [bind].
    unfold np.vstack, np.ones. cbn [np.atleast_2d].
    rewrite repeat_length, (Nat.eqb_sym n (length v)).
    destruct (length v =? n)%nat eqn:Hv; cbn [bind andb negb snd];
      [|reflexivity].
    fold (first_bad_length n rest).
    pose proof (stack_features_values
                  (mkDataset ((k, v) :: rest) resp) n rest (1 + 1)
                  ([repeat 1%float n] ++ [v]) Hnd) as Hstack.
    unfold dict_keys in Hstack. rewrite Hstack
      by (intros x Hx; now right).
    fold (all_of_length n rest).
    destruct (all_of_length n rest); cbn [bind]; [|reflexivity].
    cbn [length Nat.ltb Nat.leb np.T].
    do 2 f_equal.
    apply map_ext_in. intros i Hi. apply in_seq in Hi.
    cbn [app map snd]. rewrite nth_repeat_lt by lia.
    now rewrite map_map.
Qed.

Lemma all_of_length_true (n : nat) (feats : dict (list float)) :
  all_of_length n feats = true <->
  Forall (fun kv => length (snd kv) = n) feats.
Proof.
  unfold all_of_length. rewrite forallb_forall, Forall_forall.
  split; intros H kv Hkv; specialize (H kv Hkv); now apply Nat.eqb_eq.
Qed.

(** X11: on a dataset with distinct keys whose vectors all have
    [numSamples] entries, the design matrix is exactly this: row [i] is a
    one followed by sample [i] of every feature, the features coming in the
    order of the dictionary. *)
Theorem constructDesignMatrix_content (data : dataset) (numSamples : nat) :
  NoDup (dict_keys (features data)) ->
  vectors_of_length data numSamples ->
  constructDesignMatrix data numSamples =
  Ok (np.Mat numSamples (1 + dict_len (features data))
        (design_rows numSamples (features data))).
Proof.
  intros Hnd Hlen. rewrite constructDesignMatrix_value by exact Hnd.
  apply all_of_length_true in Hlen. now rewrite Hlen.
Qed.

Lemma constructDesignMatrix_content_witness :
  constructDesignMatrix
    (mkDataset [("X1", [2; 3; 4]%float); ("X2", [5; 6; 7]%float)] []) 3 =
  Ok (np.Mat 3 (1 + 2)
        (design_rows 3 [("X1", [2; 3; 4]%float); ("X2", [5; 6; 7]%float)])).
Proof.
  apply (constructDesignMatrix_content
           (mkDataset [("X1", [2; 3; 4]%float); ("X2", [5; 6; 7]%float)] [])
           3).
  - repeat constructor; simpl; intuition discriminate.
  - repeat constructor.
Defined.

(** X12: on a dataset with distinct keys, [constructDesignMatrix] raises a
    [ValueError], the one of stacking arrays of different lengths, if and
    only if some feature vector does not have [numSamples] entries; it
    raises no error of another kind. *)
Theorem constructDesignMatrix_raises_iff (data : dataset) (numSamples : nat) :
  NoDup (dict_keys (features data)) ->
  (is_ValueError (constructDesignMatrix data numSamples)
   <-> Exists (fun kv => length (snd kv) <> numSamples) (features data)) /\
  (forall e, constructDesignMatrix data numSamples = Raise e ->
             exists msg, e = ValueError msg).
Proof.
  intro Hnd. rewrite constructDesignMatrix_value by exact Hnd.
  destruct (all_of_length numSamples (features data)) eqn:Hall.
  - apply all_of_length_true in Hall. split; [|discriminate].
    split; [intros []|]. intro Hex. exfalso.
    apply Exists_exists in Hex as (kv & Hkv & Hne).
    rewrite Forall_forall in Hall. now apply Hne, Hall.
  - split; [|intros e [= <-]; now eexists].
    split; [intros _|intros _; exact I].
    apply Exists_exists.
    unfold all_of_length in Hall.
    destruct (forallb_forall
                (fun kv => (length (snd kv) =? numSamples)%nat)
                (features data)) as [_ Hback].
    destruct (Exists_dec (fun kv => length (snd kv) <> numSamples)
                (features data)) as [Hex|Hnex].
    + intro kv. destruct (Nat.eq_dec (length (snd kv)) numSamples);
        [right; tauto|now left].
    + now apply Exists_exists.
    + exfalso. rewrite Hback in Hall; [discriminate|].
      intros kv Hkv. apply Nat.eqb_eq.
      destruct (Nat.eq_dec (length (snd kv)) numSamples) as [Heq|Hne];
        [exact Heq|].
      exfalso. apply Hnex, Exists_exists. now exists kv.
Qed.

Lemma constructDesignMatrix_raises_iff_witness :
  (is_ValueError
     (constructDesignMatrix
        (mkDataset [("X1", [2; 3; 4]%float); ("X2", [5; 6]%float)] []) 3)
   <-> Exists (fun kv => length (snd kv) <> 3%nat)
         [("X1", [2; 3; 4]%float); ("X2", [5; 6]%float)]) /\
  (forall e,
     constructDesignMatrix
       (mkDataset [("X1", [2; 3; 4]%float); ("X2", [5; 6]%float)] []) 3
       = Raise e ->
     exists msg, e = ValueError msg).
Proof.
  apply (constructDesignMatrix_raises_iff
           (mkDataset [("X1", [2; 3; 4]%float); ("X2", [5; 6]%float)] []) 3).
  repeat constructor; simpl; intuition discriminate.
Defined.

(** ** Selection, design matrix and prior mean together *)

Lemma selectData_Ok_inv (data : dataset) (fs : list Z) (sel : dataset) :
  selectData data fs = Ok sel ->
  Forall (has_key data) fs /\
  NoDup (dict_keys (features sel)) /\
  (forall k, dict_get (features sel) k =
             if named fs k then dict_get (features data) k
             else Raise (KeyError k)).
Proof.
  intro Hsel. unfold selectData in Hsel.
  destruct (has_key_all_or_missing data fs) as [Hall|Hex].
  - destruct (selectData_loop_present data fs (mkDataset [] []) Hall)
      as (sel' & Hsel' & _ & Hnd & Hget).
    assert (sel' = sel) as -> by congruence.
    split; [exact Hall|]. split; [apply Hnd; constructor|exact Hget].
  - destruct (selectData_loop_missing data fs (mkDataset [] []) Hex)
      as (i & _ & _ & Hraise).
    congruence.
Qed.

Lemma selected_count (data : dataset) (fs : list Z) (sel : dataset) :
  selectData data fs = Ok sel ->
  dict_len (features sel) = length (np.unique fs).
Proof.
  intro Hsel. apply selectData_Ok_inv in Hsel as (Hall & Hnd & Hget).
  assert (Hkeys : forall k,
             In k (dict_keys (features sel)) <->
             In k (map feature_key (np.unique fs))).
  { intro k. rewrite dict_get_Ok_iff_key, Hget, in_map_iff.
    destruct (named fs k) eqn:En.
    - apply named_true in En as (i & Hi & <-).
      rewrite Forall_forall in Hall.
      destruct (dict_get_of_key _ _ (Hall i Hi)) as (v & Hv & _).
      split; [intros _|intros _; now exists v].
      exists i. split; [reflexivity|now apply unique_In].
    - split; [intros (v & Hv); discriminate|].
      intros (i & <- & Hi). apply (proj1 (unique_In _ _)) in Hi.
      assert (named fs (feature_key i) = true) as Ht; [|congruence].
      apply named_true. now exists i. }
  assert (NoDup (map feature_key (np.unique fs))) as Hnd'.
  { apply Finite.Injective_map_NoDup; [|apply unique_NoDup].
    intros a b. apply feature_key_inj. }
  unfold dict_len. rewrite <- (length_map fst (features sel)).
  rewrite <- (length_map feature_key (np.unique fs)).
  apply Nat.le_antisymm; apply NoDup_incl_length; try assumption;
    intros k Hk; now apply Hkeys.
Qed.

Lemma selected_vectors (data : dataset) (fs : list Z) (sel : dataset)
  (n : nat) :
  vectors_of_length data n ->
  selectData data fs = Ok sel ->
  vectors_of_length sel n.
Proof.
  intros Hlen Hsel. apply selectData_Ok_inv in Hsel as (_ & Hnd & Hget).
  unfold vectors_of_length in *. rewrite Forall_forall in Hlen |- *.
  intros [k v] Hkv.
  pose proof (dict_get_entry _ k v Hnd Hkv) as Hv.
  rewrite Hget in Hv. destruct (named fs k); [|discriminate].
  exact (Hlen (k, v) (dict_get_Ok_key _ _ _ Hv)).
Qed.

Lemma constructMuMatrix_value (fs : list Z) :
  constructMuMatrix fs =
  Ok (np.Mat (length fs + 1) 1 (repeat [0%float] (length fs + 1))).
Proof.
  unfold constructMuMatrix, np.zeros.
  pose proof (reshape_column (repeat 0%float (length fs + 1))) as H.
  now rewrite repeat_length, map_repeat in H.
Qed.

(** X13: the design matrix of the data selected by a feature set has one
    column for the intercept and one per distinct id of the set, while the
    prior mean has one row for the intercept and one per entry of the set:
    the column count of the first equals the row count of the second
    exactly when the feature set has no repeated id. *)
Theorem selected_design_matches_prior_iff_distinct
  (data : dataset) (featureSet : list Z) (numSamples : nat)
  (selected : dataset) :
  vectors_of_length data numSamples ->
  selectData data featureSet = Ok selected ->
  exists X mu cols rows,
    constructDesignMatrix selected numSamples = Ok X /\
    constructMuMatrix featureSet = Ok mu /\
    np.shape X = [numSamples; cols] /\
    np.shape mu = [rows; 1%nat] /\
    cols = (1 + length (np.unique featureSet))%nat /\
    rows = (length featureSet + 1)%nat /\
    (cols = rows <-> NoDup featureSet).
Proof.
  intros Hlen Hsel.
  pose proof (selected_count _ _ _ Hsel) as Hcount.
  pose proof (selected_vectors _ _ _ _ Hlen Hsel) as Hvec.
  destruct (selectData_Ok_inv _ _ _ Hsel) as (_ & Hnd & _).
  rewrite constructDesignMatrix_value by exact Hnd.
  apply all_of_length_true in Hvec. rewrite Hvec, Hcount.
  rewrite constructMuMatrix_value.
  do 4 eexists. split; [reflexivity|]. split; [reflexivity|].
  cbn [np.shape]. repeat split; try reflexivity.
  - intro Heq. apply unique_length_NoDup_iff. lia.
  - intro Hnd'. apply unique_length_NoDup_iff in Hnd'. lia.
Qed.

Lemma selected_design_matches_prior_iff_distinct_witness :
  exists X mu cols rows,
    constructDesignMatrix
      (mkDataset [("X4", [8; 9]%float); ("X6", [1; 2]%float)] []) 2 = Ok X /\
    constructMuMatrix [4; 6; 4] = Ok mu /\
    np.shape X = [2%nat; cols] /\
    np.shape mu = [rows; 1%nat] /\
    cols = (1 + length (np.unique [4; 6; 4]%Z))%nat /\
    rows = (length [4; 6; 4]%Z + 1)%nat /\
    (cols = rows <-> NoDup [4; 6; 4]).
Proof.
  apply (selected_design_matches_prior_iff_distinct
           (mkDataset [("X2", [5; 6]%float); ("X4", [8; 9]%float);
                       ("X6", [1; 2]%float)] [("y", [0; 1]%float)])
           [4; 6; 4] 2
           (mkDataset [("X4", [8; 9]%float); ("X6", [1; 2]%float)] [])).
  - repeat constructor.
  - reflexivity.
Defined.

(** ** Data generation *)

Section Generation.

Variable g : nat -> nat -> float.
Variable n : nat.

Let columns (m : nat) (feats : dict (list float)) : Prop :=
  dict_keys feats = column_names m /\
  Forall (fun kv => length (snd kv) = n) feats.

Lemma random_normal_length (call : nat) :
  length (np.random_normal g call n) = n.
Proof. unfold np.random_normal. now rewrite length_map, length_seq. Qed.

Lemma range_of_difference (a b : nat) :
  range (Z.of_nat a - Z.of_nat b) = map Z.of_nat (seq 0 (a - b)).
Proof. unfold range. f_equal. f_equal. lia. Qed.

Lemma column_names_fresh (m : nat) :
  ~ In (feature_key (Z.of_nat (S m))) (column_names m).
Proof.
  unfold column_names. rewrite in_map_iff. intros (j & Hj & Hin).
  apply feature_key_inj in Hj. apply in_seq in Hin. lia.
Qed.

Lemma column_names_In (m j : nat) :
  (1 <= j <= m)%nat -> In (feature_key (Z.of_nat j)) (column_names m).
Proof.
  intro Hj. unfold column_names. apply in_map_iff.
  exists j. split; [reflexivity|]. apply in_seq. lia.
Qed.

Lemma columns_add (m : nat) (feats : dict (list float)) (v : list float) :
  columns m feats -> length v = n ->
  columns (S m) (dict_set feats (feature_key (Z.of_nat (S m))) v).
Proof.
  intros [Hkeys Hlen] Hv.
  rewrite dict_set_new_key by (rewrite Hkeys; apply column_names_fresh).
  split.
  - unfold dict_keys, column_names in *.
    rewrite map_app, Hkeys, seq_S, map_app. reflexivity.
  - apply Forall_app. split; [exact Hlen|]. now repeat constructor.
Qed.

Lemma columns_lookup (m j : nat) (feats : dict (list float)) :
  columns m feats -> (1 <= j <= m)%nat ->
  exists v, dict_get feats (feature_key (Z.of_nat j)) = Ok v /\ length v = n.
Proof.
  intros [Hkeys Hlen] Hj.
  destruct (dict_get_of_key feats (feature_key (Z.of_nat j)))
    as (v & Hv & Hin).
  { rewrite Hkeys. now apply column_names_In. }
  exists v. split; [exact Hv|].
  rewrite Forall_forall in Hlen. exact (Hlen _ Hin).
Qed.

Lemma generateData_independent_columns (k a call : nat)
  (feats : dict (list float)) :
  columns a feats ->
  exists feats',
    generateData_independent g n (map Z.of_nat (seq a k)) call feats
      = (feats', (call + k)%nat) /\
    columns (a + k) feats'.
Proof.
  revert a call feats.
  induction k as [|k IH]; intros a call feats Hcols;
    cbn [seq map generateData_independent].
  - exists feats. now rewrite !Nat.add_0_r.
  - replace (Z.of_nat a + 1) with (Z.of_nat (S a)) by lia.
    destruct (IH (S a) (S call)
                (dict_set feats (feature_key (Z.of_nat (S a)))
                   (np.random_normal g call n)))
      as (feats' & Hrun & Hcols').
    { apply columns_add; [exact Hcols|apply random_normal_length]. }
    exists feats'. rewrite Hrun.
    replace (S call + k)%nat with (call + S k)%nat by lia.
    replace (a + S k)%nat with (S a + k)%nat by lia.
    now split.
Qed.

Lemma add_arrays_same_length (a b : list float) :
  length a = n -> length b = n ->
  exists c, np.add_arrays a b = Ok c /\ length c = n.
Proof.
  intros Ha Hb. unfold np.add_arrays.
  rewrite Ha, Hb, Nat.eqb_refl. eexists. split; [reflexivity|].
  rewrite length_map, length_combine. lia.
Qed.

Lemma generateData_dependent_columns (indep k b call : nat)
  (dimensions dependent : Z) (feats : dict (list float)) :
  dimensions - dependent = Z.of_nat indep ->
  (2 <= indep)%nat ->
  columns (indep + b) feats ->
  exists feats',
    generateData_dependent g n dimensions dependent
      (map Z.of_nat (seq b k)) call feats
      = Ok (feats', (call + k)%nat) /\
    columns (indep + b + k) feats'.
Proof.
  intros Hdiff Hindep. revert b call feats.
  induction k as [|k IH]; intros b call feats Hcols;
    cbn [seq map generateData_dependent].
  - exists feats. now rewrite !Nat.add_0_r.
  - destruct (columns_lookup (indep + b) 1 feats Hcols) as (x1 & Hx1 & Hl1);
      [lia|].
    destruct (columns_lookup (indep + b) 2 feats Hcols) as (x2 & Hx2 & Hl2);
      [lia|].
    change (feature_key (Z.of_nat 1)) with "X1" in Hx1.
    change (feature_key (Z.of_nat 2)) with "X2" in Hx2.
    rewrite Hx1, Hx2. cbn [bind].
    destruct (add_arrays_same_length
                (np.mul_scalar x1 (-0x1.999999999999ap-3)%float)
                (np.mul_scalar x2 0x1.6666666666666p-1%float))
      as (comb & -> & Hlc);
      [unfold np.mul_scalar; now rewrite length_map ..|].
    cbn [bind].
    destruct (add_arrays_same_length comb (np.random_normal g call n))
      as (cur & -> & Hlcur); [exact Hlc|apply random_normal_length|].
    cbn [bind].
    replace (dimensions - dependent + Z.of_nat b + 1)
      with (Z.of_nat (S (indep + b))) by lia.
    destruct (IH (S b) (S call)
                (dict_set feats (feature_key (Z.of_nat (S (indep + b)))) cur))
      as (feats' & Hrun & Hcols').
    { replace (indep + S b)%nat with (S (indep + b)) by lia.
      now apply columns_add. }
    exists feats'. rewrite Hrun.
    replace (S call + k)%nat with (call + S k)%nat by lia.
    replace (indep + b + S k)%nat with (indep + S b + k)%nat by lia.
    now split.
Qed.

(** What a successful generation returns. *)
Lemma generateData_columns (dimensions dependent : nat) :
  dependent = 0%nat \/ (dependent + 2 <= dimensions)%nat ->
  exists feats call,
    generateData g n dimensions dependent
      = Ok (mkDataset feats [("y", np.random_normal g call n)]) /\
    columns dimensions feats.
Proof.
  intro Hcond. unfold generateData.
  rewrite range_of_difference.
  destruct (generateData_independent_columns (dimensions - dependent) 0 0 [])
    as (feats & Hind & Hcols).
  { split; [reflexivity|constructor]. }
  rewrite Hind. cbn [Nat.add] in *.
  destruct Hcond as [->|Hdep].
  - cbn [Z.of_nat range Z.to_nat seq map generateData_dependent bind].
    exists feats, (dimensions - 0)%nat. split; [reflexivity|].
    now rewrite Nat.sub_0_r in Hcols.
  - unfold range. rewrite Nat2Z.id.
    destruct (generateData_dependent_columns (dimensions - dependent)
                dependent 0 (dimensions - dependent)
                (Z.of_nat dimensions) (Z.of_nat dependent) feats)
      as (feats' & -> & Hcols'); [lia|lia|now rewrite Nat.add_0_r|].
    cbn [bind]. exists feats', (dimensions - dependent + dependent)%nat.
    split; [reflexivity|].
    now replace (dimensions - dependent + 0 + dependent)%nat
      with dimensions in Hcols' by lia.
Qed.

(** X14: when no column is dependent, or when at least two columns are
    independent, [generateData] returns a dataset whose features are named
    ["X1"], ..., ["X" + dimensions] in this order, every feature vector and
    the response ["y"] having [num_samples] entries. *)
Theorem generateData_shape (dimensions dependent : nat) :
  dependent = 0%nat \/ (dependent + 2 <= dimensions)%nat ->
  exists data y,
    generateData g n dimensions dependent = Ok data /\
    dict_keys (features data) = column_names dimensions /\
    NoDup (dict_keys (features data)) /\
    vectors_of_length data n /\
    response data = [("y", y)] /\
    length y = n.
Proof.
  intro Hcond.
  destruct (generateData_columns dimensions dependent Hcond)
    as (feats & call & -> & Hkeys & Hlen).
  eexists. eexists. split; [reflexivity|]. cbn [features response].
  split; [exact Hkeys|]. split.
  - rewrite Hkeys. unfold column_names.
    apply Finite.Injective_map_NoDup; [|apply seq_NoDup].
    intros a b Hab. apply feature_key_inj in Hab. lia.
  - split; [exact Hlen|]. split; [reflexivity|apply random_normal_length].
Qed.

(** X15: with at least one dependent column and fewer than two independent
    ones, [generateData] raises a [KeyError]: for ["X1"] when no column is
    independent, for ["X2"] when exactly one is. *)
Theorem generateData_raises (dimensions dependent : nat) :
  (1 <= dependent)%nat ->
  (dimensions < dependent + 2)%nat ->
  generateData g n dimensions dependent =
  Raise (KeyError (if (dimensions <=? dependent)%nat then "X1" else "X2")).
Proof.
  intros Hdep Hdim. unfold generateData.
  rewrite range_of_difference.
  destruct dependent as [|d]; [lia|].
  unfold range at 1. rewrite Nat2Z.id. cbn [seq map].
  destruct (Nat.leb_spec dimensions (S d)) as [Hle|Hgt].
  - replace (dimensions - S d)%nat with 0%nat by lia.
    reflexivity.
  - replace (dimensions - S d)%nat with 1%nat by lia.
    cbn [seq map generateData_independent].
    change (feature_key (Z.of_nat 0 + 1)) with "X1".
    cbn [dict_set generateData_dependent].
    change (dict_get [("X1", np.random_normal g 0 n)] "X1")
      with (Ok (np.random_normal g 0 n) : result (list float)).
    cbn [bind].
    change (dict_get [("X1", np.random_normal g 0 n)] "X2")
      with (Raise (KeyError "X2") : result (list float)).
    reflexivity.
Qed.

(** X16: when [generateData] succeeds, the design matrix built from its
    result with the same [num_samples] has shape
    [(num_samples, dimensions + 1)], and the dataset has [dimensions]
    features. *)
Theorem generateData_design_matrix (dimensions dependent : nat) :
  dependent = 0%nat \/ (dependent + 2 <= dimensions)%nat ->
  exists data X,
    generateData g n dimensions dependent = Ok data /\
    dict_len (features data) = dimensions /\
    constructDesignMatrix data n = Ok X /\
    np.shape X = [n; (dimensions + 1)%nat].
Proof.
  intro Hcond.
  destruct (generateData_columns dimensions dependent Hcond)
    as (feats & call & -> & Hkeys & Hlen).
  assert (length feats = dimensions) as Hcount.
  { rewrite <- (length_map fst feats). fold (dict_keys feats).
    rewrite Hkeys. unfold column_names. now rewrite length_map, length_seq. }
  assert (NoDup (dict_keys feats)) as Hnd.
  { rewrite Hkeys. unfold column_names.
    apply Finite.Injective_map_NoDup; [|apply seq_NoDup].
    intros a b Hab. apply feature_key_inj in Hab. lia. }
  eexists. eexists. split; [reflexivity|]. cbn [features].
  split; [exact Hcount|].
  rewrite constructDesignMatrix_value by exact Hnd. cbn [features].
  apply all_of_length_true in Hlen. rewrite Hlen.
  split; [reflexivity|]. cbn [np.shape]. unfold dict_len.
  rewrite Hcount. do 2 f_equal. lia.
Qed.

(** X17: from the data [generateData] returns, [selectData] succeeds on
    every feature set of ids of [1, dimensions], and every selected vector
    has [num_samples] entries. *)
Theorem generateData_selectable
  (dimensions dependent : nat) (featureSet : list Z) :
  dependent = 0%nat \/ (dependent + 2 <= dimensions)%nat ->
  Forall (in_range dimensions) featureSet ->
  exists data selected,
    generateData g n dimensions dependent = Ok data /\
    selectData data featureSet = Ok selected /\
    vectors_of_length selected n.
Proof.
  intros Hcond Hrange.
  destruct (generateData_columns dimensions dependent Hcond)
    as (feats & call & -> & Hkeys & Hlen).
  set (data := mkDataset feats [("y", np.random_normal g call n)]).
  destruct (selectData_loop_present data featureSet (mkDataset [] []))
    as (sel & Hsel & _).
  { rewrite Forall_forall in Hrange |- *. intros i Hi.
    unfold has_key, data. cbn [features]. rewrite Hkeys.
    specialize (Hrange i Hi). unfold in_range in Hrange.
    replace i with (Z.of_nat (Z.to_nat i)) by lia.
    apply column_names_In. lia. }
  exists data, sel. split; [reflexivity|]. split; [exact Hsel|].
  eapply selected_vectors; [|exact Hsel]. exact Hlen.
Qed.

End Generation.

Lemma generateData_shape_witness :
  exists data y,
    generateData (fun _ _ => 0%float) 4 3 1 = Ok data /\
    dict_keys (features data) = column_names 3 /\
    NoDup (dict_keys (features data)) /\
    vectors_of_length data 4 /\
    response data = [("y", y)] /\
    length y = 4%nat.
Proof.
  apply (generateData_shape (fun _ _ => 0%float) 4 3 1). right. lia.
Defined.

Lemma generateData_raises_witness :
  generateData (fun _ _ => 0%float) 4 3 2 =
  Raise (KeyError (if (3 <=? 2)%nat then "X1" else "X2")).
Proof.
  apply (generateData_raises (fun _ _ => 0%float) 4 3 2); lia.
Defined.

Lemma generateData_design_matrix_witness :
  exists data X,
    generateData (fun _ _ => 0%float) 4 3 1 = Ok data /\
    dict_len (features data) = 3%nat /\
    constructDesignMatrix data 4 = Ok X /\
    np.shape X = [4; (3 + 1)]%nat.
Proof.
  apply (generateData_design_matrix (fun _ _ => 0%float) 4 3 1). right. lia.
Defined.

Lemma generateData_selectable_witness :
  exists data selected,
    generateData (fun _ _ => 0%float) 4 3 1 = Ok data /\
    selectData data [3; 1] = Ok selected /\
    vectors_of_length selected 4.
Proof.
  apply (generateData_selectable (fun _ _ => 0%float) 4 3 1 [3; 1]).
  - right. lia.
  - repeat constructor; unfold in_range; simpl; lia.
Defined.

(** X18: whatever the generator hands out, [testDataGeneration] prints 3
    for the number of features and [(100, 4)] for the shape of the design
    matrix. *)
Theorem testDataGeneration_prints (g : nat -> nat -> float) :
  testDataGeneration g = Ok (3%nat, [100; 4]%nat).
Proof.
  unfold testDataGeneration.
  destruct (generateData_columns g 100 3 1) as (feats & call & -> & Hkeys & Hlen);
    [right; lia|].
  cbn [bind features].
  assert (length feats = 3%nat) as Hcount.
  { rewrite <- (length_map fst feats). fold (dict_keys feats).
    now rewrite Hkeys. }
  rewrite constructDesignMatrix_value.
  - cbn [features]. apply all_of_length_true in Hlen. rewrite Hlen.
    cbn [bind np.shape]. unfold dict_len. now rewrite Hcount.
  - cbn [features]. rewrite Hkeys.
    repeat constructor; simpl; intuition discriminate.
Qed.

(** * Coefficient files *)

(** ** Pieces of a line *)

Lemma split_not_nil (sep : Ascii.ascii) (s : list Ascii.ascii) :
  split sep s <> [].
Proof.
  destruct s as [|c t]; simpl; [discriminate|].
  destruct (Ascii.eqb c sep); [discriminate|].
  destruct (split sep t); discriminate.
Qed.

Lemma split_pieces (sep : Ascii.ascii) (s w : list Ascii.ascii) :
  In w (split sep s) ->
  ~ In sep w /\ (forall c, In c w -> In c s).
Proof.
  revert w. induction s as [|c t IH]; simpl; intros w Hw.
  - destruct Hw as [<-|[]]. split; [intros []|intros c []].
  - destruct (Ascii.eqb_spec c sep) as [->|Hne].
    + destruct Hw as [<-|Hw]; [split; [intros []|intros c []]|].
      destruct (IH w Hw) as [Hsep Hsub]. split; [exact Hsep|].
      intros c Hc. right. now apply Hsub.
    + destruct (split sep t) as [|w0 ws] eqn:E.
      * destruct Hw as [<-|[]]. split.
        -- intros [Heq|[]]. congruence.
        -- intros c' [<-|[]]. now left.
      * destruct Hw as [<-|Hw].
        -- destruct (IH w0 (or_introl eq_refl)) as [Hsep Hsub]. split.
           ++ intros [Heq|Hin]; [congruence|contradiction].
           ++ intros c' [<-|Hc']; [now left|right; now apply Hsub].
        -- destruct (IH w (or_intror Hw)) as [Hsep Hsub]. split; [exact Hsep|].
           intros c' Hc'. right. now apply Hsub.
Qed.

Lemma split_without_sep (sep : Ascii.ascii) (s : list Ascii.ascii) :
  ~ In sep s -> split sep s = [s].
Proof.
  induction s as [|c t IH]; simpl; intro Hnin; [reflexivity|].
  destruct (Ascii.eqb_spec c sep) as [->|Hne]; [tauto|].
  rewrite IH by tauto. reflexivity.
Qed.

Lemma lstrip_sub (set s : list Ascii.ascii) (c : Ascii.ascii) :
  In c (lstrip set s) -> In c s.
Proof.
  induction s as [|x t IH]; simpl; [tauto|].
  destruct (in_chars set x); [intro H; right; now apply IH|tauto].
Qed.

Lemma strip_sub (set s : list Ascii.ascii) (c : Ascii.ascii) :
  In c (strip set s) -> In c s.
Proof.
  unfold strip, rstrip. intro H.
  apply in_rev, lstrip_sub in H. apply in_rev in H.
  eapply lstrip_sub, H.
Qed.

Lemma delete_char_In (d c : Ascii.ascii) (s : list Ascii.ascii) :
  In c (delete_char d s) <-> In c s /\ c <> d.
Proof.
  unfold delete_char. rewrite filter_In, negb_true_iff.
  split; intros [H1 H2]; (split; [exact H1|]).
  - intros ->. now rewrite Ascii.eqb_refl in H2.
  - now apply Ascii.eqb_neq.
Qed.

Lemma concat_pieces (sep : Ascii.ascii) (s : list Ascii.ascii) :
  String.concat (String.String sep String.EmptyString)
    (map String.string_of_list_ascii (split sep s))
  = String.string_of_list_ascii s.
Proof.
  induction s as [|c t IH]; [reflexivity|].
  cbn [split]. pose proof (split_not_nil sep t) as Hne.
  destruct (Ascii.eqb_spec c sep) as [->|Hc].
  - destruct (split sep t) as [|w ws]; [contradiction|].
    cbn [map String.concat String.string_of_list_ascii String.append] in *.
    now rewrite IH.
  - destruct (split sep t) as [|w ws]; [contradiction|].
    cbn [map String.string_of_list_ascii] in *.
    destruct ws as [|w' ws];
      cbn [map String.concat String.append] in *; now rewrite IH.
Qed.

(** X19: every line gives at least one token, and no token holds a space
    or a comma: spaces separate the tokens and commas are deleted. *)
Theorem regularizedLine_tokens_clean (line : String.string) :
  regularizedLine line <> [] /\
  forall token, In token (regularizedLine line) ->
    ~ In " "%char (chars token) /\ ~ In ","%char (chars token).
Proof.
  unfold regularizedLine. split.
  - intro H. apply map_eq_nil in H. now apply split_not_nil in H.
  - intros token Htok. apply in_map_iff in Htok as (w & <- & Hw).
    unfold chars. rewrite String.list_ascii_of_string_of_list_ascii.
    apply split_pieces in Hw as [Hsep Hsub].
    split; [exact Hsep|].
    intro Hcomma. apply Hsub, delete_char_In in Hcomma. tauto.
Qed.

Lemma regularizedLine_tokens_clean_witness :
  ~ In " "%char (chars "0.3") /\ ~ In ","%char (chars "0.3").
Proof.
  apply (proj2 (regularizedLine_tokens_clean "[0.1, -0.2, 0.3]") "0.3").
  simpl. tauto.
Defined.

(** X20: the tokens of a line, joined by single spaces, give back the line
    without the brackets and newlines at its ends and without its
    commas. *)
Theorem regularizedLine_joins_back (line : String.string) :
  String.concat " " (regularizedLine line) =
  String.string_of_list_ascii
    (delete_char ","%char (strip brackets_newline (chars line))).
Proof.
  unfold regularizedLine. apply concat_pieces.
Qed.

(** X21: a line without any space gives exactly one token, whatever commas
    it holds: the line without the brackets and newlines at its ends and
    with its commas deleted. *)
Theorem regularizedLine_commas_do_not_separate (line : String.string) :
  ~ In " "%char (chars line) ->
  regularizedLine line =
  [String.string_of_list_ascii
     (delete_char ","%char (strip brackets_newline (chars line)))].
Proof.
  intro Hnin. unfold regularizedLine.
  rewrite split_without_sep; [reflexivity|].
  intro Hin. apply delete_char_In in Hin as [Hin _].
  apply Hnin. eapply strip_sub, Hin.
Qed.

Lemma regularizedLine_commas_do_not_separate_witness :
  regularizedLine "[0.1,0.2]" =
  [String.string_of_list_ascii
     (delete_char ","%char (strip brackets_newline (chars "[0.1,0.2]")))].
Proof.
  apply (regularizedLine_commas_do_not_separate "[0.1,0.2]").
  simpl. intuition discriminate.
Defined.

(** ** Reading the two files *)

Section ParseCoefsFacts.

Variable float_of : String.string -> option float.

(** A line and the coefficients it is parsed to. *)
Let parsed (line : String.string) (v : list float) : Prop :=
  floatifiedLine float_of (regularizedLine line) = Some v.

Lemma read_lines_all (lines : list String.string) (vs coefs : list (list float)) :
  Forall2 parsed lines vs ->
  read_lines float_of lines coefs = (coefs ++ vs, true).
Proof.
  intro H. revert coefs.
  induction H as [|line v lines vs Hv _ IH]; intro coefs; cbn [read_lines].
  - now rewrite app_nil_r.
  - unfold parsed in Hv. rewrite Hv, IH, <- app_assoc. reflexivity.
Qed.

Lemma read_lines_stops
  (good rest : list String.string) (bad : String.string)
  (vs coefs : list (list float)) :
  Forall2 parsed good vs ->
  floatifiedLine float_of (regularizedLine bad) = None ->
  read_lines float_of (good ++ bad :: rest) coefs = (coefs ++ vs, false).
Proof.
  intros H Hbad. revert coefs.
  induction H as [|line v lines vs Hv _ IH]; intro coefs;
    cbn [app read_lines].
  - now rewrite Hbad, app_nil_r.
  - unfold parsed in Hv. rewrite Hv, IH, <- app_assoc. reflexivity.
Qed.

(** X22: when every line of the first file parses, [parseCoefs] returns
    the coefficients of these lines, one list per line and in order, and
    the second file plays no part. *)
Theorem parseCoefs_first_file
  (lines : list String.string) (vs : list (list float))
  (second : option (list String.string)) :
  Forall2 parsed lines vs ->
  parseCoefs float_of (Some lines) second = Returned vs.
Proof.
  intro H. unfold parseCoefs.
  now rewrite (read_lines_all lines vs [] H).
Qed.

(** X23: when a line of the first file does not parse, the lines parsed
    before it stay in the list: if the second file parses, [parseCoefs]
    returns the coefficients of those first lines followed by the
    coefficients of all lines of the second file. *)
Theorem parseCoefs_keeps_partial_reading
  (good rest lines2 : list String.string) (bad : String.string)
  (vs1 vs2 : list (list float)) :
  Forall2 parsed good vs1 ->
  floatifiedLine float_of (regularizedLine bad) = None ->
  Forall2 parsed lines2 vs2 ->
  parseCoefs float_of (Some (good ++ bad :: rest)) (Some lines2)
    = Returned (vs1 ++ vs2).
Proof.
  intros Hgood Hbad Hsecond. unfold parseCoefs.
  rewrite (read_lines_stops good rest bad vs1 [] Hgood Hbad).
  cbn [app]. now rewrite (read_lines_all lines2 vs2 vs1 Hsecond).
Qed.

(** X24: [parseCoefs] ends in an error only through the second file: with
    the error of [open] exactly when the second file cannot be opened and
    the first reading did not run to its end. *)
Theorem parseCoefs_open_error_iff
  (first second : option (list String.string)) :
  parseCoefs float_of first second = OpenFailed <->
  second = None /\
  (first = None \/
   exists lines, first = Some lines /\
                 snd (read_lines float_of lines []) = false).
Proof.
  unfold parseCoefs.
  destruct first as [lines|].
  - destruct (read_lines float_of lines []) as [coefs finished] eqn:E.
    destruct finished.
    + split; [discriminate|].
      intros (_ & [Hf|(l & [= <-] & Hl)]); [discriminate|].
      rewrite E in Hl. discriminate.
    + destruct second as [lines2|].
      * destruct (read_lines float_of lines2 coefs) as [c f].
        split; [destruct f; discriminate|intros [H _]; discriminate].
      * split; [intros _|reflexivity].
        split; [reflexivity|]. right. exists lines.
        split; [reflexivity|]. now rewrite E.
  - destruct second as [lines2|].
    + destruct (read_lines float_of lines2 []) as [c f].
      split; [destruct f; discriminate|intros [H _]; discriminate].
    + split; [intros _|reflexivity]. split; [reflexivity|now left].
Qed.

End ParseCoefsFacts.

Lemma parseCoefs_first_file_witness :
  parseCoefs (fun x => if String.eqb x "1" then Some 1%float else None)
    (Some ["[1, 1]"; "[1]"]) None
  = Returned [[1; 1]; [1]]%float.
Proof.
  apply (parseCoefs_first_file
           (fun x => if String.eqb x "1" then Some 1%float else None)
           ["[1, 1]"; "[1]"] [[1; 1]; [1]]%float None).
  repeat constructor.
Defined.

Lemma parseCoefs_keeps_partial_reading_witness :
  parseCoefs (fun x => if String.eqb x "1" then Some 1%float else None)
    (Some (["[1, 1]"] ++ "[1,1]" :: ["[1]"])) (Some ["[1]"; "[1 1 1]"])
  = Returned ([[1; 1]] ++ [[1]; [1; 1; 1]])%float.
Proof.
  apply (parseCoefs_keeps_partial_reading
           (fun x => if String.eqb x "1" then Some 1%float else None)
           ["[1, 1]"] ["[1]"] ["[1]"; "[1 1 1]"] "[1,1]"
           [[1; 1]]%float [[1]; [1; 1; 1]]%float).
  - repeat constructor.
  - reflexivity.
  - repeat constructor.
Defined.
